(** * input-remapper: the mapping model of [inputremapper/configs/mapping.py]

    A shallow embedding of [UIMapping], [Mapping] and [MappingData] together
    with the part of pydantic (v1) that drives their validators: model
    construction ([validate_model]) and validated assignment
    ([BaseModel.__setattr__] under [validate_assignment = True]).

    Conventions.
    - Python [None] and an absent dictionary key are both [None] of an
      [option]; every read in the source goes through [values.get], which
      cannot tell them apart.
    - Keyword arguments and assigned values are well typed for the field
      annotations of the source; pydantic's coercion of ill-typed input is
      outside the model.
    - [float] fields are carried as rationals: the source only compares and
      copies them.
    - [needs_workaround] (pydantic older than 1.7.1) is [False]. *)

From Stdlib Require Import ZArith QArith String Ascii List Bool Lia.
Import ListNotations.

Local Open Scope string_scope.
Local Open Scope Z_scope.

(** ** Python strings *)

(** [str.isspace] on one character, for the code points below 256. *)
Definition isspace (c : ascii) : bool :=
  let n := Z.of_nat (nat_of_ascii c) in
  ((9 <=? n) && (n <=? 13)) || ((28 <=? n) && (n <=? 32))
  || (n =? 133) || (n =? 160).

Fixpoint lstrip (s : string) : string :=
  match s with
  | EmptyString => EmptyString
  | String c s' => if isspace c then lstrip s' else s
  end.

Fixpoint rstrip (s : string) : string :=
  match s with
  | EmptyString => EmptyString
  | String c s' =>
      match rstrip s' with
      | EmptyString => if isspace c then EmptyString else String c EmptyString
      | r => String c r
      end
  end.

(** [str.strip()] without arguments. *)
Definition strip (s : string) : string := rstrip (lstrip s).

(** A string that does not begin with white space. *)
Definition no_leading_space (s : string) : Prop :=
  match s with
  | EmptyString => True
  | String c _ => isspace c = false
  end.

(** Truth value of an [Optional[str]]: [None] and the empty string are false. *)
Definition truthy_str (s : option string) : bool :=
  match s with
  | Some s => negb (s =? "")%string
  | None => false
  end.

(** Truth value of an [Optional[int]]: [None] and [0] are false. *)
Definition truthy_int (z : option Z) : bool :=
  match z with
  | Some z => negb (z =? 0)
  | None => false
  end.

Definition is_some {A} (o : option A) : bool :=
  match o with Some _ => true | None => false end.

Definition is_none {A} (o : option A) : bool := negb (is_some o).

(** [a == b] on [Optional[int]]. *)
Definition opt_Z_eqb (a b : option Z) : bool :=
  match a, b with
  | Some x, Some y => x =? y
  | None, None => true
  | _, _ => false
  end.

(** [a == b] on [Optional[str]]. *)
Definition opt_str_eqb (a b : option string) : bool :=
  match a, b with
  | Some x, Some y => (x =? y)%string
  | None, None => true
  | _, _ => false
  end.

(** ** Constants of [evdev.ecodes] *)

Definition EV_KEY : Z := 1.
Definition EV_REL : Z := 2.
Definition EV_ABS : Z := 3.

(** ** Enumerations of the module *)

Inductive MappingType := KEY_MACRO | ANALOG.

(** [MappingType.X.value] *)
Definition MappingType_value (t : MappingType) : string :=
  match t with
  | KEY_MACRO => "key_macro"
  | ANALOG => "analog"
  end.

(** [MappingType(s)], the enum lookup by value. *)
Definition MappingType_of_value (s : string) : option MappingType :=
  if (s =? "key_macro")%string then Some KEY_MACRO
  else if (s =? "analog")%string then Some ANALOG
  else None.

Definition MappingType_eqb (a b : MappingType) : bool :=
  match a, b with
  | KEY_MACRO, KEY_MACRO | ANALOG, ANALOG => true
  | _, _ => false
  end.

(** Membership in [KnownUinput]. *)
Definition is_KnownUinput (s : string) : bool :=
  ((s =? "keyboard") || (s =? "mouse") || (s =? "gamepad")
   || (s =? "keyboard + mouse"))%string.

(** The three model classes of the module. *)
Inductive Class := UIMappingCls | MappingCls | MappingDataCls.

(** ** Input combinations *)

(** Modelled from the spec: [InputConfig] lives in
    [inputremapper/configs/input_config.py], outside [mapping.py].  The spec
    describes a constituent as an event class, a code and, for analog axes,
    a trigger threshold; the validators below read [type] and
    [analog_threshold]. *)
Record InputConfig := {
  config_type : Z;
  config_code : Z;
  analog_threshold : option Z
}.

(** An [InputCombination] is a tuple of [InputConfig]s. *)
Definition InputCombination := list InputConfig.

Definition InputConfig_eqb (a b : InputConfig) : bool :=
  (config_type a =? config_type b) && (config_code a =? config_code b)
  && opt_Z_eqb (analog_threshold a) (analog_threshold b).

(** Tuple equality, [new_combi == self.input_combination]. *)
Fixpoint InputCombination_eqb (a b : InputCombination) : bool :=
  match a, b with
  | [], [] => true
  | x :: a', y :: b' => InputConfig_eqb x y && InputCombination_eqb a' b'
  | _, _ => false
  end.

(** ** Keyword arguments

    The dictionary handed to a model constructor, before any validation.
    [R] is the type of the values offered as an input combination, which
    [InputCombination.validate] has not yet seen. *)
Record Kwargs (R : Type) := {
  kw_input_combination : option R;
  kw_target_uinput : option string;
  kw_output_symbol : option string;
  kw_output_type : option Z;
  kw_output_code : option Z;
  kw_name : option string;
  kw_mapping_type : option string;
  kw_release_combination_keys : option bool;
  kw_macro_key_sleep_ms : option Z;
  kw_deadzone : option Q;
  kw_gain : option Q;
  kw_expo : option Q;
  kw_rel_rate : option Z;
  kw_rel_to_abs_input_cutoff : option Z;
  kw_release_timeout : option Q;
  kw_force_release_timeout : option bool
}.

Arguments kw_input_combination {R} _.
Arguments kw_target_uinput {R} _.
Arguments kw_output_symbol {R} _.
Arguments kw_output_type {R} _.
Arguments kw_output_code {R} _.
Arguments kw_name {R} _.
Arguments kw_mapping_type {R} _.
Arguments kw_release_combination_keys {R} _.
Arguments kw_macro_key_sleep_ms {R} _.
Arguments kw_deadzone {R} _.
Arguments kw_gain {R} _.
Arguments kw_expo {R} _.
Arguments kw_rel_rate {R} _.
Arguments kw_rel_to_abs_input_cutoff {R} _.
Arguments kw_release_timeout {R} _.
Arguments kw_force_release_timeout {R} _.

(** [values["output_symbol"] = s] on the keyword dictionary. *)
Definition set_kw_output_symbol {R} (k : Kwargs R) (s : option string)
  : Kwargs R :=
  {| kw_input_combination := kw_input_combination k;
     kw_target_uinput := kw_target_uinput k;
     kw_output_symbol := s;
     kw_output_type := kw_output_type k;
     kw_output_code := kw_output_code k;
     kw_name := kw_name k;
     kw_mapping_type := kw_mapping_type k;
     kw_release_combination_keys := kw_release_combination_keys k;
     kw_macro_key_sleep_ms := kw_macro_key_sleep_ms k;
     kw_deadzone := kw_deadzone k;
     kw_gain := kw_gain k;
     kw_expo := kw_expo k;
     kw_rel_rate := kw_rel_rate k;
     kw_rel_to_abs_input_cutoff := kw_rel_to_abs_input_cutoff k;
     kw_release_timeout := kw_release_timeout k;
     kw_force_release_timeout := kw_force_release_timeout k |}.

(** ** The collaborators of the module

    [mapping.py] imports the input combination type, the keyboard layout,
    the macro parser and the table of default output devices from other
    modules.  They are parameters of the model. *)
Record Env := {
  (** an arbitrary Python value offered as an input combination *)
  Raw : Type;
  (** an [InputCombination] instance, seen as such a value *)
  raw_of : InputCombination -> Raw;
  (** [InputCombination.validate]; [None] when it raises [ValueError] or
      [TypeError] *)
  InputCombination_validate : Raw -> option InputCombination;
  (** [InputCombination.empty_combination()] *)
  empty_combination : InputCombination;
  (** the property [InputConfig.defines_analog_input] *)
  defines_analog_input : InputConfig -> bool;
  (** [InputCombination.find_analog_input_config()] *)
  find_analog_input_config : InputCombination -> option InputConfig;
  (** [keyboard_layout.get] *)
  keyboard_layout_get : string -> option Z;
  DISABLE_NAME : string;
  (** [Parser.is_this_a_macro] *)
  is_this_a_macro : string -> bool;
  (** [Parser.parse(symbol, mapping=..., verbose=False)]: [Some msg] when it
      raises [MacroError], [None] when the macro parses *)
  Parser_parse : string -> Kwargs Raw -> option string;
  (** [GlobalUInputs.can_default_uinput_emit(target, type, code)] *)
  can_default_uinput_emit : string -> Z -> Z -> bool
}.

(** ** Errors *)

(** One entry of a pydantic [ValidationError]: the exception a validator
    raised, or pydantic's own report for a field. *)
Inductive ErrorItem :=
| MissingError (loc : string)
| EnumMemberError (loc : string) (given : string)
| NumberNotGeError (loc : string)
| NumberNotLeError (loc : string)
| NumberNotGtError (loc : string)
| InputCombinationError
| OutputSymbolUnknownError (symbol : string)
| SymbolNotAvailableInTargetError (symbol target : string)
| OnlyOneAnalogInputError (analog_events : list InputConfig)
| TriggerPointInRangeError (input_config : InputConfig)
| OutputSymbolVariantError
| MacroButTypeOrCodeSetError
| SymbolAndCodeMismatchError (symbol : string) (code : option Z)
| WrongMappingTypeForKeyError
| MissingOutputAxisError (analog_input_config : InputConfig)
    (output_type : option Z)
| MissingMacroOrKeyError
| MacroError (msg : string)
| AssertionError.

(** What a call can raise.  [X] is the type of the exceptions of the
    combination-changed callback. *)
Inductive Exception (X : Type) :=
| ValidationError (errors : list ErrorItem)
| ValidationErrorFailedToValidate
| NoFieldError (name : string)
| ImmutableError
| CallbackError (e : X).

Arguments ValidationError {X} _.
Arguments ValidationErrorFailedToValidate {X}.
Arguments NoFieldError {X} _.
Arguments ImmutableError {X}.
Arguments CallbackError {X} _.

(** ** Validated values

    [Values] is the dictionary that pydantic fills field by field and hands
    to the root validators: a field whose validation failed has no entry.
    [Fields] is the [__dict__] of a model instance, where every field has
    its value. *)
Record Values := {
  v_input_combination : option InputCombination;
  v_target_uinput : option string;
  v_output_symbol : option string;
  v_output_type : option Z;
  v_output_code : option Z;
  v_name : option string;
  v_mapping_type : option MappingType;
  v_release_combination_keys : option bool;
  v_macro_key_sleep_ms : option Z;
  v_deadzone : option Q;
  v_gain : option Q;
  v_expo : option Q;
  v_rel_rate : option Z;
  v_rel_to_abs_input_cutoff : option Z;
  v_release_timeout : option Q;
  v_force_release_timeout : option bool
}.

Record Fields := {
  input_combination : InputCombination;
  target_uinput : option string;
  output_symbol : option string;
  output_type : option Z;
  output_code : option Z;
  name : option string;
  mapping_type : option MappingType;
  release_combination_keys : bool;
  macro_key_sleep_ms : Z;
  deadzone : Q;
  gain : Q;
  expo : Q;
  rel_rate : Z;
  rel_to_abs_input_cutoff : Z;
  release_timeout : Q;
  force_release_timeout : bool
}.

(** [values["mapping_type"] = t] *)
Definition set_v_mapping_type (v : Values) (t : option MappingType) : Values :=
  {| v_input_combination := v_input_combination v;
     v_target_uinput := v_target_uinput v;
     v_output_symbol := v_output_symbol v;
     v_output_type := v_output_type v;
     v_output_code := v_output_code v;
     v_name := v_name v;
     v_mapping_type := t;
     v_release_combination_keys := v_release_combination_keys v;
     v_macro_key_sleep_ms := v_macro_key_sleep_ms v;
     v_deadzone := v_deadzone v;
     v_gain := v_gain v;
     v_expo := v_expo v;
     v_rel_rate := v_rel_rate v;
     v_rel_to_abs_input_cutoff := v_rel_to_abs_input_cutoff v;
     v_release_timeout := v_release_timeout v;
     v_force_release_timeout := v_force_release_timeout v |}.

(** The instance dictionary as a dictionary of validated values. *)
Definition values_of_fields (f : Fields) : Values :=
  {| v_input_combination := Some (input_combination f);
     v_target_uinput := target_uinput f;
     v_output_symbol := output_symbol f;
     v_output_type := output_type f;
     v_output_code := output_code f;
     v_name := name f;
     v_mapping_type := mapping_type f;
     v_release_combination_keys := Some (release_combination_keys f);
     v_macro_key_sleep_ms := Some (macro_key_sleep_ms f);
     v_deadzone := Some (deadzone f);
     v_gain := Some (gain f);
     v_expo := Some (expo f);
     v_rel_rate := Some (rel_rate f);
     v_rel_to_abs_input_cutoff := Some (rel_to_abs_input_cutoff f);
     v_release_timeout := Some (release_timeout f);
     v_force_release_timeout := Some (force_release_timeout f) |}.

(** The instance dictionary made of a complete dictionary of values; [None]
    when an entry without default is absent. *)
Definition fields_of_values (v : Values) : option Fields :=
  match v_input_combination v, v_release_combination_keys v,
        v_macro_key_sleep_ms v, v_deadzone v, v_gain v, v_expo v,
        v_rel_rate v, v_rel_to_abs_input_cutoff v, v_release_timeout v,
        v_force_release_timeout v with
  | Some ic, Some rck, Some ms, Some dz, Some g, Some ex, Some rr, Some cut,
    Some rt, Some frt =>
      Some {| input_combination := ic;
              target_uinput := v_target_uinput v;
              output_symbol := v_output_symbol v;
              output_type := v_output_type v;
              output_code := v_output_code v;
              name := v_name v;
              mapping_type := v_mapping_type v;
              release_combination_keys := rck;
              macro_key_sleep_ms := ms;
              deadzone := dz;
              gain := g;
              expo := ex;
              rel_rate := rr;
              rel_to_abs_input_cutoff := cut;
              release_timeout := rt;
              force_release_timeout := frt |}
  | _, _, _, _, _, _, _, _, _, _ => None
  end.

(** ** Validators *)

Section Validation.

Variable E : Env.

(** [Cfg.allow_mutation]; [ImmutableCfg] of [MappingData] turns it off. *)
Definition allow_mutation (cls : Class) : bool :=
  match cls with
  | MappingDataCls => false
  | _ => true
  end.

(** *** [Mapping.validate_symbol], a root validator with [pre=True] *)
Definition validate_symbol (values : Kwargs (Raw E))
  : ErrorItem + Kwargs (Raw E) :=
  match kw_output_symbol values with
  | None => inr values
  | Some symbol =>
      if (symbol =? "")%string then inr (set_kw_output_symbol values None)
      else
        let symbol := strip symbol in
        let values := set_kw_output_symbol values (Some symbol) in
        if (symbol =? DISABLE_NAME E)%string then inr values
        else if is_this_a_macro E symbol then
          match Parser_parse E symbol values with
          | Some msg => inl (MacroError msg)
          | None => inr values
          end
        else
          match keyboard_layout_get E symbol with
          | None => inl (OutputSymbolUnknownError symbol)
          | Some code =>
              match kw_target_uinput values with
              | Some target =>
                  if negb (can_default_uinput_emit E target EV_KEY code)
                  then inl (SymbolNotAvailableInTargetError symbol target)
                  else inr values
              | None => inr values
              end
          end
  end.

(** *** The validators of the field [input_combination] of [Mapping] *)

Definition only_one_analog_input (combination : InputCombination)
  : ErrorItem + InputCombination :=
  let analog_events := filter (defines_analog_input E) combination in
  if 1 <? Z.of_nat (length analog_events)
  then inl (OnlyOneAnalogInputError analog_events)
  else inr combination.

(** The condition of the loop body of [trigger_point_in_range]. *)
Definition trigger_point_out_of_range (input_config : InputConfig) : bool :=
  (config_type input_config =? EV_ABS)
  && truthy_int (analog_threshold input_config)
  && match analog_threshold input_config with
     | Some t => 100 <=? Z.abs t
     | None => false
     end.

(** The loop of [trigger_point_in_range] over the remaining constituents. *)
Fixpoint trigger_point_loop (rest : list InputConfig) : option ErrorItem :=
  match rest with
  | [] => None
  | input_config :: rest' =>
      if trigger_point_out_of_range input_config
      then Some (TriggerPointInRangeError input_config)
      else trigger_point_loop rest'
  end.

Definition trigger_point_in_range (combination : InputCombination)
  : ErrorItem + InputCombination :=
  match trigger_point_loop combination with
  | Some e => inl e
  | None => inr combination
  end.

(** *** The root validators *)

(** [UIMapping.validate_mapping_type] *)
Definition validate_mapping_type (values : Values) : Values :=
  let output_type := v_output_type values in
  let output_code := v_output_code values in
  let output_symbol := v_output_symbol values in
  let values :=
    if negb (opt_Z_eqb output_type (Some EV_KEY)) && is_some output_code
       && negb (truthy_str output_symbol)
    then set_v_mapping_type values (Some ANALOG) else values in
  let values :=
    if is_none output_type && is_none output_code && truthy_str output_symbol
    then set_v_mapping_type values (Some KEY_MACRO) else values in
  let values :=
    if opt_Z_eqb output_type (Some EV_KEY)
    then set_v_mapping_type values (Some KEY_MACRO) else values in
  values.

(** [Mapping.validate_output_symbol_variant] *)
Definition validate_output_symbol_variant (values : Values)
  : ErrorItem + Values :=
  let o_symbol := v_output_symbol values in
  let o_type := v_output_type values in
  let o_code := v_output_code values in
  if is_none o_symbol && (is_none o_type || is_none o_code)
  then inl OutputSymbolVariantError
  else inr values.

(** [Mapping.validate_output_integrity] *)
Definition validate_output_integrity (values : Values) : ErrorItem + Values :=
  let type_ := v_output_type values in
  let code := v_output_code values in
  match v_output_symbol values with
  | None => inr values
  | Some symbol =>
      if is_none type_ && is_none code then inr values
      else if is_this_a_macro E symbol && (is_some type_ || is_some code)
      then inl MacroButTypeOrCodeSetError
      else if (is_some code
               && negb (opt_Z_eqb code (keyboard_layout_get E symbol)))
              || negb (opt_Z_eqb type_ (Some EV_KEY))
      then inl (SymbolAndCodeMismatchError symbol code)
      else inr values
  end.

(** [Mapping.output_matches_input] *)
Definition output_matches_input (values : Values) : ErrorItem + Values :=
  match v_input_combination values with
  | None => inl AssertionError
  | Some combination =>
      let analog_input_config := find_analog_input_config E combination in
      let defines_analog := is_some analog_input_config in
      let output_type := v_output_type values in
      let output_code := v_output_code values in
      let output_symbol := v_output_symbol values in
      let output_key_set :=
        truthy_str output_symbol
        || (opt_Z_eqb output_type (Some EV_KEY) && truthy_int output_code) in
      match v_mapping_type values with
      | None => inr values
      | Some mapping_type =>
          if negb defines_analog
             && negb (MappingType_eqb mapping_type KEY_MACRO)
          then inl WrongMappingTypeForKeyError
          else if negb defines_analog && negb output_key_set
          then inl MissingMacroOrKeyError
          else
            match analog_input_config with
            | Some config =>
                if negb (opt_Z_eqb output_type (Some EV_ABS)
                         || opt_Z_eqb output_type (Some EV_REL))
                   && negb (opt_str_eqb output_symbol (Some (DISABLE_NAME E)))
                then inl (MissingOutputAxisError config output_type)
                else inr values
            | None => inr values
            end
      end
  end.

(** [__pre_root_validators__] of a class. *)
Definition pre_root_validators (cls : Class)
  : list (Kwargs (Raw E) -> ErrorItem + Kwargs (Raw E)) :=
  match cls with
  | MappingCls => [validate_symbol]
  | _ => []
  end.

(** [__post_root_validators__] of a class: those of [UIMapping] first, then
    the ones a subclass adds, in the order of their definition. *)
Definition post_root_validators (cls : Class)
  : list (Values -> ErrorItem + Values) :=
  (fun values => inr (validate_mapping_type values))
  :: match cls with
     | MappingCls =>
         [validate_output_symbol_variant; validate_output_integrity;
          output_matches_input]
     | _ => []
     end.

(** The loop over the pre root validators: the first failure ends it. *)
Fixpoint run_pre_root_validators
  (validators : list (Kwargs (Raw E) -> ErrorItem + Kwargs (Raw E)))
  (input_data : Kwargs (Raw E)) : ErrorItem + Kwargs (Raw E) :=
  match validators with
  | [] => inr input_data
  | validator :: rest =>
      match validator input_data with
      | inl exc => inl exc
      | inr input_data' => run_pre_root_validators rest input_data'
      end
  end.

(** The loop over the post root validators ([skip_on_failure] is off for all
    of them): a failure is recorded and the loop goes on. *)
Fixpoint run_post_root_validators
  (validators : list (Values -> ErrorItem + Values))
  (values : Values) (errors : list ErrorItem) : Values * list ErrorItem :=
  match validators with
  | [] => (values, errors)
  | validator :: rest =>
      match validator values with
      | inl exc => run_post_root_validators rest values (errors ++ [exc])%list
      | inr values' => run_post_root_validators rest values' errors
      end
  end.

(** *** Field validation *)

(** The validators of [input_combination]: the type's own
    [InputCombination.validate], then the class validators of [Mapping] in
    the order of their definition; the first failure ends the chain. *)
Definition validate_input_combination (cls : Class) (value : Raw E)
  : ErrorItem + InputCombination :=
  match InputCombination_validate E value with
  | None => inl InputCombinationError
  | Some combination =>
      match cls with
      | MappingCls =>
          match only_one_analog_input combination with
          | inl exc => inl exc
          | inr combination => trigger_point_in_range combination
          end
      | _ => inr combination
      end
  end.

(** [target_uinput]: [Optional[Union[str, KnownUinput]]] in [UIMapping],
    a required [KnownUinput] in [Mapping].  The keyword dictionary has one
    value, [None], for an entry that is absent and for an entry that is
    [None]: pydantic reports the first as missing and the second, which
    [get_error] hands over from [dict()], as a [None] that is not allowed.
    [MissingError "target_uinput"] stands for both reports. *)
Definition validate_target_uinput (cls : Class) (value : option string)
  : ErrorItem + option string :=
  match cls with
  | MappingCls =>
      match value with
      | None => inl (MissingError "target_uinput")
      | Some s =>
          if is_KnownUinput s then inr (Some s)
          else inl (EnumMemberError "target_uinput" s)
      end
  | _ => inr value
  end.

(** [mapping_type]: [Optional[MappingType]], stored by value. *)
Definition validate_mapping_type_field (value : option string)
  : ErrorItem + option MappingType :=
  match value with
  | None => inr None
  | Some s =>
      match MappingType_of_value s with
      | Some t => inr (Some t)
      | None => inl (EnumMemberError "mapping_type" s)
      end
  end.

(** [conint(ge=0)] *)
Definition validate_ge0 (loc : string) (z : Z) : ErrorItem + Z :=
  if 0 <=? z then inr z else inl (NumberNotGeError loc).

(** [PositiveInt] *)
Definition validate_positive (loc : string) (z : Z) : ErrorItem + Z :=
  if 0 <? z then inr z else inl (NumberNotGtError loc).

(** [confloat(ge=lo, le=hi)] *)
Definition validate_between (loc : string) (lo hi q : Q) : ErrorItem + Q :=
  if negb (Qle_bool lo q) then inl (NumberNotGeError loc)
  else if negb (Qle_bool q hi) then inl (NumberNotLeError loc)
  else inr q.

(** [PositiveFloat] *)
Definition validate_positive_float (loc : string) (q : Q) : ErrorItem + Q :=
  if Qle_bool q 0 then inl (NumberNotGtError loc) else inr q.

(** A field with a default: an absent keyword takes the default as it is,
    a given value goes through the field's validators. *)
Definition with_default {A B} (validate : A -> ErrorItem + B) (default : B)
  (given : option A) : ErrorItem + B :=
  match given with
  | None => inr default
  | Some value => validate value
  end.

(** [input_combination] has the default [empty_combination()] in
    [UIMapping]; [Mapping] declares it again without one. *)
Definition field_input_combination (cls : Class) (given : option (Raw E))
  : ErrorItem + InputCombination :=
  match given with
  | Some value => validate_input_combination cls value
  | None =>
      match cls with
      | MappingCls => inl (MissingError "input_combination")
      | _ => inr (empty_combination E)
      end
  end.

Definition field_value {A} (r : ErrorItem + A) : option A :=
  match r with
  | inr v => Some v
  | inl _ => None
  end.

Definition field_errors {A} (r : ErrorItem + A) : list ErrorItem :=
  match r with
  | inr _ => []
  | inl e => [e]
  end.

Definition field_value_opt {A} (r : ErrorItem + option A) : option A :=
  match r with
  | inr v => v
  | inl _ => None
  end.

(** The loop of [validate_model] over [__fields__], in the order of the
    class body: each field is validated on its own, its value stored or its
    error recorded. *)
Definition validate_fields (cls : Class) (input_data : Kwargs (Raw E))
  : Values * list ErrorItem :=
  let r_input_combination :=
    field_input_combination cls (kw_input_combination input_data) in
  let r_target_uinput :=
    validate_target_uinput cls (kw_target_uinput input_data) in
  let r_mapping_type :=
    validate_mapping_type_field (kw_mapping_type input_data) in
  let r_release_combination_keys :=
    with_default (fun b : bool => inr b) true
      (kw_release_combination_keys input_data) in
  let r_macro_key_sleep_ms :=
    with_default (validate_ge0 "macro_key_sleep_ms") 0
      (kw_macro_key_sleep_ms input_data) in
  let r_deadzone :=
    with_default (validate_between "deadzone" 0 1) (1 # 10)%Q
      (kw_deadzone input_data) in
  let r_gain := with_default (fun q : Q => inr q) 1%Q (kw_gain input_data) in
  let r_expo :=
    with_default (validate_between "expo" (-1) 1) 0%Q (kw_expo input_data) in
  let r_rel_rate :=
    with_default (validate_positive "rel_rate") 60 (kw_rel_rate input_data) in
  let r_rel_to_abs_input_cutoff :=
    with_default (validate_positive "rel_to_abs_input_cutoff") 2
      (kw_rel_to_abs_input_cutoff input_data) in
  let r_release_timeout :=
    with_default (validate_positive_float "release_timeout") (5 # 100)%Q
      (kw_release_timeout input_data) in
  let r_force_release_timeout :=
    with_default (fun b : bool => inr b) false
      (kw_force_release_timeout input_data) in
  ({| v_input_combination := field_value r_input_combination;
      v_target_uinput := field_value_opt r_target_uinput;
      v_output_symbol := kw_output_symbol input_data;
      v_output_type := kw_output_type input_data;
      v_output_code := kw_output_code input_data;
      v_name := kw_name input_data;
      v_mapping_type := field_value_opt r_mapping_type;
      v_release_combination_keys := field_value r_release_combination_keys;
      v_macro_key_sleep_ms := field_value r_macro_key_sleep_ms;
      v_deadzone := field_value r_deadzone;
      v_gain := field_value r_gain;
      v_expo := field_value r_expo;
      v_rel_rate := field_value r_rel_rate;
      v_rel_to_abs_input_cutoff := field_value r_rel_to_abs_input_cutoff;
      v_release_timeout := field_value r_release_timeout;
      v_force_release_timeout := field_value r_force_release_timeout |},
   (field_errors r_input_combination ++ field_errors r_target_uinput
   ++ field_errors r_mapping_type
   ++ field_errors r_release_combination_keys
   ++ field_errors r_macro_key_sleep_ms ++ field_errors r_deadzone
   ++ field_errors r_gain ++ field_errors r_expo ++ field_errors r_rel_rate
   ++ field_errors r_rel_to_abs_input_cutoff
   ++ field_errors r_release_timeout
   ++ field_errors r_force_release_timeout)%list).

(** The empty dictionary that [validate_model] returns with the error of a
    pre root validator. *)
Definition no_values : Values :=
  {| v_input_combination := None; v_target_uinput := None;
     v_output_symbol := None; v_output_type := None; v_output_code := None;
     v_name := None; v_mapping_type := None;
     v_release_combination_keys := None; v_macro_key_sleep_ms := None;
     v_deadzone := None; v_gain := None; v_expo := None; v_rel_rate := None;
     v_rel_to_abs_input_cutoff := None; v_release_timeout := None;
     v_force_release_timeout := None |}.

(** pydantic's [validate_model]: the pre root validators (a failure returns
    at once with that one error), the fields, the post root validators. *)
Definition validate_model (cls : Class) (input_data : Kwargs (Raw E))
  : Values * list ErrorItem :=
  match run_pre_root_validators (pre_root_validators cls) input_data with
  | inl exc => (no_values, [exc])
  | inr input_data =>
      let (values, errors) := validate_fields cls input_data in
      run_post_root_validators (post_root_validators cls) values errors
  end.

(** [self.dict()]: the field values as keyword arguments.  pydantic copies
    the tuple of the input combination constituent by constituent; the copy
    is taken to be the combination again, offered as a value.
    [MappingData.dict] removes the entry [message_type], which is not
    carried here in the first place. *)
Definition dict (f : Fields) : Kwargs (Raw E) :=
  {| kw_input_combination := Some (raw_of E (input_combination f));
     kw_target_uinput := target_uinput f;
     kw_output_symbol := output_symbol f;
     kw_output_type := output_type f;
     kw_output_code := output_code f;
     kw_name := name f;
     kw_mapping_type := option_map MappingType_value (mapping_type f);
     kw_release_combination_keys := Some (release_combination_keys f);
     kw_macro_key_sleep_ms := Some (macro_key_sleep_ms f);
     kw_deadzone := Some (deadzone f);
     kw_gain := Some (gain f);
     kw_expo := Some (expo f);
     kw_rel_rate := Some (rel_rate f);
     kw_rel_to_abs_input_cutoff := Some (rel_to_abs_input_cutoff f);
     kw_release_timeout := Some (release_timeout f);
     kw_force_release_timeout := Some (force_release_timeout f) |}.

(** [UIMapping.get_output_type_code] *)
Definition get_output_type_code (self : Fields) : option (Z * option Z) :=
  match output_code self, output_type self with
  | Some code, Some type_ => Some (type_, Some code)
  | _, _ =>
      match output_symbol self with
      | Some symbol =>
          if truthy_str (Some symbol) && negb (is_this_a_macro E symbol)
          then Some (EV_KEY, keyboard_layout_get E symbol)
          else None
      | None => None
      end
  end.

(** [UIMapping.is_axis_mapping] *)
Definition is_axis_mapping (self : Fields) : bool :=
  opt_Z_eqb (output_type self) (Some EV_ABS)
  || opt_Z_eqb (output_type self) (Some EV_REL).

(** [UIMapping.is_analog_output] *)
Definition is_analog_output (self : Fields) : bool :=
  match mapping_type self with
  | Some t => MappingType_eqb t ANALOG
  | None => false
  end.

(** [UIMapping.has_input_defined] *)
Definition has_input_defined (self : Fields) : bool :=
  negb (InputCombination_eqb (input_combination self) (empty_combination E)).

End Validation.

(** ** Model instances and assignment *)

Section Instances.

Variable E : Env.

(** [W] is the state of whatever the combination-changed callback closes
    over (in the application, the preset that owns the mapping); [X] is the
    type of the exceptions the callback raises. *)
Variables W X : Type.

(** [CombinationChangedCallback]: called with the new and the old
    combination; it returns normally ([None]) or raises. *)
Definition Callback : Type :=
  InputCombination -> InputCombination -> W -> W * option X.

(** An instance of one of the three classes: its [__dict__] and the private
    attribute [_combination_changed]. *)
Record Object := {
  cls : Class;
  fields : Fields;
  combination_changed : option Callback
}.

(** A class called with keyword arguments: [BaseModel.__init__] runs
    [validate_model] and raises its [ValidationError]; otherwise the values
    become the [__dict__] and the private attribute takes its default
    [None]. *)
Definition construct (c : Class) (kwargs : Kwargs (Raw E))
  : Exception X + Object :=
  let (values, errors) := validate_model E c kwargs in
  match errors, fields_of_values values with
  | [], Some f =>
      inr {| cls := c; fields := f; combination_changed := None |}
  | _, _ => inl (ValidationError errors)
  end.

(** [UIMapping.get_error] *)
Definition get_error (self : Object) : option (Exception X) :=
  match construct MappingCls (dict E (fields self)) with
  | inl exception => Some exception
  | inr _ => None
  end.

(** [UIMapping.is_valid], which [Mapping] overrides with [True]. *)
Definition is_valid (self : Object) : bool :=
  match cls self with
  | MappingCls => true
  | _ => is_none (get_error self)
  end.

(** [UIMapping.get_bus_message] *)
Definition get_bus_message (self : Object) : Exception X + Object :=
  construct MappingDataCls (dict E (fields self)).

(** [setattr(self, key, value)] with a value of the type the key is
    annotated with.  [SetCombinationChanged] is the private attribute
    [_combination_changed]; [SetOther] is a key that names neither a field
    nor a private attribute. *)
Inductive Assignment :=
| SetInputCombination (value : Raw E)
| SetTargetUinput (value : option string)
| SetOutputSymbol (value : option string)
| SetOutputType (value : option Z)
| SetOutputCode (value : option Z)
| SetName (value : option string)
| SetMappingType (value : option string)
| SetReleaseCombinationKeys (value : bool)
| SetMacroKeySleepMs (value : Z)
| SetDeadzone (value : Q)
| SetGain (value : Q)
| SetExpo (value : Q)
| SetRelRate (value : Z)
| SetRelToAbsInputCutoff (value : Z)
| SetReleaseTimeout (value : Q)
| SetForceReleaseTimeout (value : bool)
| SetCombinationChanged (value : option Callback)
| SetOther (key : string).

Definition key (a : Assignment) : string :=
  match a with
  | SetInputCombination _ => "input_combination"
  | SetTargetUinput _ => "target_uinput"
  | SetOutputSymbol _ => "output_symbol"
  | SetOutputType _ => "output_type"
  | SetOutputCode _ => "output_code"
  | SetName _ => "name"
  | SetMappingType _ => "mapping_type"
  | SetReleaseCombinationKeys _ => "release_combination_keys"
  | SetMacroKeySleepMs _ => "macro_key_sleep_ms"
  | SetDeadzone _ => "deadzone"
  | SetGain _ => "gain"
  | SetExpo _ => "expo"
  | SetRelRate _ => "rel_rate"
  | SetRelToAbsInputCutoff _ => "rel_to_abs_input_cutoff"
  | SetReleaseTimeout _ => "release_timeout"
  | SetForceReleaseTimeout _ => "force_release_timeout"
  | SetCombinationChanged _ => "_combination_changed"
  | SetOther key => key
  end.

(** [{**self.__dict__, name: value}] *)
Definition assign_kw (k : Kwargs (Raw E)) (a : Assignment) : Kwargs (Raw E) :=
  {| kw_input_combination :=
       match a with SetInputCombination v => Some v
                  | _ => kw_input_combination k end;
     kw_target_uinput :=
       match a with SetTargetUinput v => v | _ => kw_target_uinput k end;
     kw_output_symbol :=
       match a with SetOutputSymbol v => v | _ => kw_output_symbol k end;
     kw_output_type :=
       match a with SetOutputType v => v | _ => kw_output_type k end;
     kw_output_code :=
       match a with SetOutputCode v => v | _ => kw_output_code k end;
     kw_name := match a with SetName v => v | _ => kw_name k end;
     kw_mapping_type :=
       match a with SetMappingType v => v | _ => kw_mapping_type k end;
     kw_release_combination_keys :=
       match a with SetReleaseCombinationKeys v => Some v
                  | _ => kw_release_combination_keys k end;
     kw_macro_key_sleep_ms :=
       match a with SetMacroKeySleepMs v => Some v
                  | _ => kw_macro_key_sleep_ms k end;
     kw_deadzone :=
       match a with SetDeadzone v => Some v | _ => kw_deadzone k end;
     kw_gain := match a with SetGain v => Some v | _ => kw_gain k end;
     kw_expo := match a with SetExpo v => Some v | _ => kw_expo k end;
     kw_rel_rate :=
       match a with SetRelRate v => Some v | _ => kw_rel_rate k end;
     kw_rel_to_abs_input_cutoff :=
       match a with SetRelToAbsInputCutoff v => Some v
                  | _ => kw_rel_to_abs_input_cutoff k end;
     kw_release_timeout :=
       match a with SetReleaseTimeout v => Some v
                  | _ => kw_release_timeout k end;
     kw_force_release_timeout :=
       match a with SetForceReleaseTimeout v => Some v
                  | _ => kw_force_release_timeout k end |}.

(** The outcome of [known_field.validate(value, ...)] for the assigned
    field: the validated value, ready to be stored under its name. *)
Inductive Validated :=
| ValidInputCombination (value : InputCombination)
| ValidTargetUinput (value : option string)
| ValidOutputSymbol (value : option string)
| ValidOutputType (value : option Z)
| ValidOutputCode (value : option Z)
| ValidName (value : option string)
| ValidMappingType (value : option MappingType)
| ValidReleaseCombinationKeys (value : bool)
| ValidMacroKeySleepMs (value : Z)
| ValidDeadzone (value : Q)
| ValidGain (value : Q)
| ValidExpo (value : Q)
| ValidRelRate (value : Z)
| ValidRelToAbsInputCutoff (value : Z)
| ValidReleaseTimeout (value : Q)
| ValidForceReleaseTimeout (value : bool).

Definition map_result {A B} (f : A -> B) (r : ErrorItem + A) : ErrorItem + B :=
  match r with
  | inl e => inl e
  | inr v => inr (f v)
  end.

(** The validators of the assigned field, applied to the assigned value.
    [None] for what is not a field. *)
Definition validate_assigned (c : Class) (a : Assignment)
  : option (ErrorItem + Validated) :=
  match a with
  | SetInputCombination v =>
      Some (map_result ValidInputCombination (validate_input_combination E c v))
  | SetTargetUinput v =>
      Some (map_result ValidTargetUinput (validate_target_uinput c v))
  | SetOutputSymbol v => Some (inr (ValidOutputSymbol v))
  | SetOutputType v => Some (inr (ValidOutputType v))
  | SetOutputCode v => Some (inr (ValidOutputCode v))
  | SetName v => Some (inr (ValidName v))
  | SetMappingType v =>
      Some (map_result ValidMappingType (validate_mapping_type_field v))
  | SetReleaseCombinationKeys v => Some (inr (ValidReleaseCombinationKeys v))
  | SetMacroKeySleepMs v =>
      Some (map_result ValidMacroKeySleepMs
              (validate_ge0 "macro_key_sleep_ms" v))
  | SetDeadzone v =>
      Some (map_result ValidDeadzone (validate_between "deadzone" 0 1 v))
  | SetGain v => Some (inr (ValidGain v))
  | SetExpo v =>
      Some (map_result ValidExpo (validate_between "expo" (-1) 1 v))
  | SetRelRate v =>
      Some (map_result ValidRelRate (validate_positive "rel_rate" v))
  | SetRelToAbsInputCutoff v =>
      Some (map_result ValidRelToAbsInputCutoff
              (validate_positive "rel_to_abs_input_cutoff" v))
  | SetReleaseTimeout v =>
      Some (map_result ValidReleaseTimeout
              (validate_positive_float "release_timeout" v))
  | SetForceReleaseTimeout v => Some (inr (ValidForceReleaseTimeout v))
  | SetCombinationChanged _ => None
  | SetOther _ => None
  end.

(** [new_values[name] = value] with the validated value; [symbol] is the
    entry of [output_symbol] as the pre root validators left it. *)
Definition store (v : Values) (symbol : option string) (x : Validated)
  : Values :=
  {| v_input_combination :=
       match x with ValidInputCombination c => Some c
                  | _ => v_input_combination v end;
     v_target_uinput :=
       match x with ValidTargetUinput s => s | _ => v_target_uinput v end;
     v_output_symbol :=
       match x with ValidOutputSymbol s => s | _ => symbol end;
     v_output_type :=
       match x with ValidOutputType z => z | _ => v_output_type v end;
     v_output_code :=
       match x with ValidOutputCode z => z | _ => v_output_code v end;
     v_name := match x with ValidName s => s | _ => v_name v end;
     v_mapping_type :=
       match x with ValidMappingType t => t | _ => v_mapping_type v end;
     v_release_combination_keys :=
       match x with ValidReleaseCombinationKeys b => Some b
                  | _ => v_release_combination_keys v end;
     v_macro_key_sleep_ms :=
       match x with ValidMacroKeySleepMs z => Some z
                  | _ => v_macro_key_sleep_ms v end;
     v_deadzone :=
       match x with ValidDeadzone q => Some q | _ => v_deadzone v end;
     v_gain := match x with ValidGain q => Some q | _ => v_gain v end;
     v_expo := match x with ValidExpo q => Some q | _ => v_expo v end;
     v_rel_rate :=
       match x with ValidRelRate z => Some z | _ => v_rel_rate v end;
     v_rel_to_abs_input_cutoff :=
       match x with ValidRelToAbsInputCutoff z => Some z
                  | _ => v_rel_to_abs_input_cutoff v end;
     v_release_timeout :=
       match x with ValidReleaseTimeout q => Some q
                  | _ => v_release_timeout v end;
     v_force_release_timeout :=
       match x with ValidForceReleaseTimeout b => Some b
                  | _ => v_force_release_timeout v end |}.

Definition with_fields (self : Object) (f : Fields) : Object :=
  {| cls := cls self; fields := f;
     combination_changed := combination_changed self |}.

(** The branch of pydantic's [BaseModel.__setattr__] for
    [validate_assignment]: the pre root validators run on the instance
    dictionary with the new value put in, the assigned value goes through
    the validators of its field, the post root validators run, and the whole
    [__dict__] is replaced. *)
Definition validate_assignment (self : Object) (a : Assignment)
  : Exception X + Object :=
  let new_values := assign_kw (dict E (fields self)) a in
  match run_pre_root_validators E (pre_root_validators E (cls self))
          new_values with
  | inl exc => inl (ValidationError [exc])
  | inr new_values =>
      match validate_assigned (cls self) a with
      | None => inl (NoFieldError (key a))
      | Some (inl error_) => inl (ValidationError [error_])
      | Some (inr value) =>
          let new_values :=
            store (values_of_fields (fields self))
              (kw_output_symbol new_values) value in
          let (new_values, errors) :=
            run_post_root_validators
              (post_root_validators E (cls self)) new_values [] in
          match errors, fields_of_values new_values with
          | [], Some f => inr (with_fields self f)
          | _, _ => inl (ValidationError errors)
          end
      end
  end.

(** pydantic's [BaseModel.__setattr__]: a private attribute is set directly;
    an unknown name and an immutable model raise; a field is assigned under
    validation. *)
Definition BaseModel_setattr (self : Object) (a : Assignment)
  : Exception X + Object :=
  match a with
  | SetCombinationChanged callback =>
      inr {| cls := cls self; fields := fields self;
             combination_changed := callback |}
  | SetOther name => inl (NoFieldError name)
  | _ =>
      if negb (allow_mutation (cls self)) then inl ImmutableError
      else validate_assignment self a
  end.

(** What a call of [__setattr__] leaves behind: the exception it raised, if
    any, the instance, the callback's state, and the calls of the callback
    it made, each with its arguments [(new, old)]. *)
Record Outcome := {
  raised : option (Exception X);
  self_after : Object;
  world_after : W;
  callback_calls : list (InputCombination * InputCombination)
}.

(** [UIMapping.__setattr__] *)
Definition setattr (self : Object) (a : Assignment) (w : W) : Outcome :=
  match a, combination_changed self with
  | SetInputCombination value, Some callback =>
      match InputCombination_validate E value with
      | None =>
          {| raised := Some ValidationErrorFailedToValidate;
             self_after := self; world_after := w; callback_calls := [] |}
      | Some new_combi =>
          let old_combi := input_combination (fields self) in
          if InputCombination_eqb new_combi old_combi
          then {| raised := None; self_after := self; world_after := w;
                  callback_calls := [] |}
          else
            let (w', result) := callback new_combi old_combi w in
            match result with
            | Some e =>
                {| raised := Some (CallbackError e); self_after := self;
                   world_after := w';
                   callback_calls := [(new_combi, old_combi)] |}
            | None =>
                match BaseModel_setattr self
                        (SetInputCombination (raw_of E new_combi)) with
                | inl exc =>
                    {| raised := Some exc; self_after := self;
                       world_after := w';
                       callback_calls := [(new_combi, old_combi)] |}
                | inr self' =>
                    {| raised := None; self_after := self';
                       world_after := w';
                       callback_calls := [(new_combi, old_combi)] |}
                end
            end
      end
  | _, _ =>
      match BaseModel_setattr self a with
      | inl exc =>
          {| raised := Some exc; self_after := self; world_after := w;
             callback_calls := [] |}
      | inr self' =>
          {| raised := None; self_after := self'; world_after := w;
             callback_calls := [] |}
      end
  end.

(** [UIMapping.set_combination_changed_callback] *)
Definition set_combination_changed_callback (self : Object)
  (callback : Callback) (w : W) : Outcome :=
  setattr self (SetCombinationChanged (Some callback)) w.

(** [UIMapping.remove_combination_changed_callback] *)
Definition remove_combination_changed_callback (self : Object) (w : W)
  : Outcome :=
  setattr self (SetCombinationChanged None) w.

End Instances.

Arguments cls {W X} _.
Arguments fields {W X} _.
Arguments combination_changed {W X} _.
Arguments raised {W X} _.
Arguments self_after {W X} _.
Arguments world_after {W X} _.
Arguments callback_calls {W X} _.
Arguments SetInputCombination {E W X} _.
Arguments SetTargetUinput {E W X} _.
Arguments SetOutputSymbol {E W X} _.
Arguments SetOutputType {E W X} _.
Arguments SetOutputCode {E W X} _.
Arguments SetName {E W X} _.
Arguments SetMappingType {E W X} _.
Arguments SetReleaseCombinationKeys {E W X} _.
Arguments SetMacroKeySleepMs {E W X} _.
Arguments SetDeadzone {E W X} _.
Arguments SetGain {E W X} _.
Arguments SetExpo {E W X} _.
Arguments SetRelRate {E W X} _.
Arguments SetRelToAbsInputCutoff {E W X} _.
Arguments SetReleaseTimeout {E W X} _.
Arguments SetForceReleaseTimeout {E W X} _.
Arguments SetCombinationChanged {E W X} _.
Arguments SetOther {E W X} _.
Arguments key {E W X} _.

(** ** The claim of the specification about [mapping_type]

    The specification words the derivation rule differently from
    [validate_mapping_type]; this is the rule as the specification has it,
    to be compared with the validator. *)
Definition spec_mapping_type (values : Values) : option MappingType :=
  let output_type := v_output_type values in
  let output_code := v_output_code values in
  let output_symbol := v_output_symbol values in
  if is_some output_type && negb (opt_Z_eqb output_type (Some EV_KEY))
     && is_none output_symbol
  then Some ANALOG
  else if is_some output_symbol && is_none output_type && is_none output_code
  then Some KEY_MACRO
  else if opt_Z_eqb output_type (Some EV_KEY)
  then Some KEY_MACRO
  else v_mapping_type values.

(** ** A sample environment

    Stand-ins for the collaborators, to run the model on concrete inputs: a
    keyboard layout that knows two symbols and the disable symbol, a macro
    test that looks for a plus sign or a pair of parentheses, a parser that
    accepts every macro, output devices of which only the keyboard ones
    emit key events, and constituents that define an analog input when they
    are on an axis. *)

Fixpoint contains (c : ascii) (s : string) : bool :=
  match s with
  | EmptyString => false
  | String c' s' => Ascii.eqb c c' || contains c s'
  end.

Definition sample_is_this_a_macro (output : string) : bool :=
  contains "+" (strip output)
  || (contains "(" output && contains ")" output
      && (4 <=? Z.of_nat (String.length output))).

(** A constituent defines an analog input when its event class is one of
    the two axis classes.  The constituent of the placeholder combination
    (type 99) is on no axis. *)
Definition sample_defines_analog_input (input_config : InputConfig) : bool :=
  (config_type input_config =? EV_ABS) || (config_type input_config =? EV_REL).

Definition sample_keyboard_layout_get (symbol : string) : option Z :=
  if (symbol =? "a")%string then Some 30
  else if (symbol =? "b")%string then Some 48
  else if (symbol =? "disable")%string then Some (-1)
  else None.

Definition sample_env : Env :=
  {| Raw := option InputCombination;
     raw_of := Some;
     InputCombination_validate := fun value => value;
     empty_combination :=
       [{| config_type := 99; config_code := 99;
           analog_threshold := Some 99 |}];
     defines_analog_input := sample_defines_analog_input;
     find_analog_input_config := find sample_defines_analog_input;
     keyboard_layout_get := sample_keyboard_layout_get;
     DISABLE_NAME := "disable";
     is_this_a_macro := sample_is_this_a_macro;
     Parser_parse := fun _ _ => None;
     can_default_uinput_emit :=
       fun target type_ _ =>
         (type_ =? EV_KEY)
         && ((target =? "keyboard") || (target =? "keyboard + mouse"))%string
  |}.

(** Keyword arguments that give the combination, the target and the output
    and leave the rest to the defaults. *)
Definition sample_kwargs (combination : option InputCombination)
  (target symbol : option string) (type_ code : option Z)
  : Kwargs (Raw sample_env) :=
  {| kw_input_combination := option_map Some combination;
     kw_target_uinput := target;
     kw_output_symbol := symbol;
     kw_output_type := type_;
     kw_output_code := code;
     kw_name := None;
     kw_mapping_type := None;
     kw_release_combination_keys := None;
     kw_macro_key_sleep_ms := None;
     kw_deadzone := None;
     kw_gain := None;
     kw_expo := None;
     kw_rel_rate := None;
     kw_rel_to_abs_input_cutoff := None;
     kw_release_timeout := None;
     kw_force_release_timeout := None |}.

Definition key_config (code : Z) : InputConfig :=
  {| config_type := EV_KEY; config_code := code; analog_threshold := None |}.

Definition abs_config (code : Z) (threshold : option Z) : InputConfig :=
  {| config_type := EV_ABS; config_code := code;
     analog_threshold := threshold |}.

Definition rel_config (code : Z) (threshold : option Z) : InputConfig :=
  {| config_type := EV_REL; config_code := code;
     analog_threshold := threshold |}.

(** The fields of [UIMapping(input_combination=[key 30], target_uinput=
    "keyboard", output_symbol="a")]. *)
Definition sample_fields : Fields :=
  {| input_combination := [key_config 30];
     target_uinput := Some "keyboard";
     output_symbol := Some "a";
     output_type := None;
     output_code := None;
     name := None;
     mapping_type := Some KEY_MACRO;
     release_combination_keys := true;
     macro_key_sleep_ms := 0;
     deadzone := (1 # 10)%Q;
     gain := 1%Q;
     expo := 0%Q;
     rel_rate := 60;
     rel_to_abs_input_cutoff := 2;
     release_timeout := (5 # 100)%Q;
     force_release_timeout := false |}.

(** A callback in the manner of the preset's: it refuses a combination that
    is already in the list it is given as its state. *)
Definition sample_callback : Callback (list InputCombination) string :=
  fun new_combi _ used =>
    if existsb (InputCombination_eqb new_combi) used
    then (used, Some "combination already mapped")
    else (new_combi :: used, None).

Definition sample_mapping : Object (list InputCombination) string :=
  {| cls := UIMappingCls; fields := sample_fields;
     combination_changed := Some sample_callback |}.

(** The same object with the symbol replaced. *)
Definition sample_fields_with_symbol (symbol : option string) : Fields :=
  {| input_combination := input_combination sample_fields;
     target_uinput := target_uinput sample_fields;
     output_symbol := symbol;
     output_type := output_type sample_fields;
     output_code := output_code sample_fields;
     name := name sample_fields;
     mapping_type := mapping_type sample_fields;
     release_combination_keys := release_combination_keys sample_fields;
     macro_key_sleep_ms := macro_key_sleep_ms sample_fields;
     deadzone := deadzone sample_fields;
     gain := gain sample_fields;
     expo := expo sample_fields;
     rel_rate := rel_rate sample_fields;
     rel_to_abs_input_cutoff := rel_to_abs_input_cutoff sample_fields;
     release_timeout := release_timeout sample_fields;
     force_release_timeout := force_release_timeout sample_fields |}.

(** The validated values of the sample mapping with another output and
    another previous [mapping_type]. *)
Definition sample_values (type_ code : option Z) (symbol : option string)
  (previous : option MappingType) : Values :=
  {| v_input_combination := Some [key_config 30];
     v_target_uinput := Some "keyboard";
     v_output_symbol := symbol;
     v_output_type := type_;
     v_output_code := code;
     v_name := None;
     v_mapping_type := previous;
     v_release_combination_keys := Some true;
     v_macro_key_sleep_ms := Some 0;
     v_deadzone := Some (1 # 10)%Q;
     v_gain := Some 1%Q;
     v_expo := Some 0%Q;
     v_rel_rate := Some 60;
     v_rel_to_abs_input_cutoff := Some 2;
     v_release_timeout := Some (5 # 100)%Q;
     v_force_release_timeout := Some false |}.

(** ** Predicates of the statements *)

(** What the validators of the numeric fields guarantee for the entries
    that are present. *)
Definition numeric_ok (v : Values) : Prop :=
  (forall z, v_macro_key_sleep_ms v = Some z -> (0 <=? z) = true)
  /\ (forall q, v_deadzone v = Some q ->
       Qle_bool 0 q = true /\ Qle_bool q 1 = true)
  /\ (forall q, v_expo v = Some q ->
       Qle_bool (-1) q = true /\ Qle_bool q 1 = true)
  /\ (forall z, v_rel_rate v = Some z -> (0 <? z) = true)
  /\ (forall z, v_rel_to_abs_input_cutoff v = Some z -> (0 <? z) = true)
  /\ (forall q, v_release_timeout v = Some q -> Qle_bool q 0 = false).

(** What the field validators of [Mapping] guarantee in addition. *)
Definition required_ok (E : Env) (v : Values) : Prop :=
  (exists combination,
     v_input_combination v = Some combination
     /\ only_one_analog_input E combination = inr combination
     /\ trigger_point_in_range combination = inr combination)
  /\ (exists target,
       v_target_uinput v = Some target /\ is_KnownUinput target = true).

(** The assumptions on the collaborators under which a validated mapping
    survives the round trip through its dictionary: an [InputCombination]
    instance validates to itself; the verdict of the macro parser depends on
    the macro alone; and the empty string is neither the disable symbol, nor
    a macro, nor a symbol of the keyboard layout. *)
Definition collaborators_ok (E : Env) : Prop :=
  (forall combination,
     InputCombination_validate E (raw_of E combination) = Some combination)
  /\ (forall symbol k1 k2,
       Parser_parse E symbol k1 = Parser_parse E symbol k2)
  /\ DISABLE_NAME E <> ""
  /\ is_this_a_macro E "" = false
  /\ keyboard_layout_get E "" = None.

(** ** More of the module: predicates on the output, and what the
    statements about instances need *)

Definition REL_HWHEEL : Z := 6.
Definition REL_WHEEL : Z := 8.
Definition REL_WHEEL_HI_RES : Z := 11.
Definition REL_HWHEEL_HI_RES : Z := 12.

(** [UIMapping.is_wheel_output] *)
Definition is_wheel_output (self : Fields) : bool :=
  opt_Z_eqb (output_code self) (Some REL_WHEEL)
  || opt_Z_eqb (output_code self) (Some REL_HWHEEL).

(** [UIMapping.is_high_res_wheel_output] *)
Definition is_high_res_wheel_output (self : Fields) : bool :=
  opt_Z_eqb (output_code self) (Some REL_WHEEL_HI_RES)
  || opt_Z_eqb (output_code self) (Some REL_HWHEEL_HI_RES).

(** The local [output_key_set] of [output_matches_input], as a truth
    value. *)
Definition output_key_set (self : Fields) : bool :=
  truthy_str (output_symbol self)
  || (opt_Z_eqb (output_type self) (Some EV_KEY)
      && truthy_int (output_code self)).

(** The instance dictionary with another input combination. *)
Definition with_input_combination (f : Fields) (c : InputCombination)
  : Fields :=
  {| input_combination := c;
     target_uinput := target_uinput f;
     output_symbol := output_symbol f;
     output_type := output_type f;
     output_code := output_code f;
     name := name f;
     mapping_type := mapping_type f;
     release_combination_keys := release_combination_keys f;
     macro_key_sleep_ms := macro_key_sleep_ms f;
     deadzone := deadzone f;
     gain := gain f;
     expo := expo f;
     rel_rate := rel_rate f;
     rel_to_abs_input_cutoff := rel_to_abs_input_cutoff f;
     release_timeout := release_timeout f;
     force_release_timeout := force_release_timeout f |}.

(** The constraints that the annotations put on the numeric fields. *)
Definition in_bounds (f : Fields) : Prop :=
  0 <= macro_key_sleep_ms f
  /\ (0 <= deadzone f /\ deadzone f <= 1)%Q
  /\ (-1 <= expo f /\ expo f <= 1)%Q
  /\ 0 < rel_rate f
  /\ 0 < rel_to_abs_input_cutoff f
  /\ (0 < release_timeout f)%Q.

(** What every instance satisfies: the constraints of the numeric fields,
    and a [mapping_type] that [validate_mapping_type] has nothing to change
    about. *)
Definition instance_ok (f : Fields) : Prop :=
  in_bounds f
  /\ mapping_type f
     = v_mapping_type (validate_mapping_type (values_of_fields f)).

(** The sample mapping as an instance of [Mapping] and of [UIMapping]
    without callback. *)
Definition sample_validated : Object (list InputCombination) string :=
  {| cls := MappingCls; fields := sample_fields;
     combination_changed := None |}.

Definition sample_editable : Object (list InputCombination) string :=
  {| cls := UIMappingCls; fields := sample_fields;
     combination_changed := None |}.

Definition sample_snapshot : Object (list InputCombination) string :=
  {| cls := MappingDataCls; fields := sample_fields;
     combination_changed := None |}.

(** Fields with the given combination, target and output, and the defaults
    for the rest. *)
Definition sample_fields_of (combination : InputCombination)
  (target symbol : option string) (type_ code : option Z)
  (kind : option MappingType) : Fields :=
  {| input_combination := combination;
     target_uinput := target;
     output_symbol := symbol;
     output_type := type_;
     output_code := code;
     name := None;
     mapping_type := kind;
     release_combination_keys := true;
     macro_key_sleep_ms := 0;
     deadzone := (1 # 10)%Q;
     gain := 1%Q;
     expo := 0%Q;
     rel_rate := 60;
     rel_to_abs_input_cutoff := 2;
     release_timeout := (5 # 100)%Q;
     force_release_timeout := false |}.

(** [Mapping(input_combination=[key 3], target_uinput="keyboard",
    output_symbol="b", output_type=EV_KEY, output_code=48)] *)
Definition sample_key_mapping : Object (list InputCombination) string :=
  {| cls := MappingCls;
     fields := sample_fields_of [key_config 3] (Some "keyboard") (Some "b")
                 (Some EV_KEY) (Some 48) (Some KEY_MACRO);
     combination_changed := None |}.

(** [Mapping(input_combination=[abs axis 0], target_uinput="gamepad",
    output_type=EV_ABS, output_code=1)] *)
Definition sample_axis_mapping : Object (list InputCombination) string :=
  {| cls := MappingCls;
     fields := sample_fields_of [abs_config 0 None] (Some "gamepad") None
                 (Some EV_ABS) (Some 1) (Some ANALOG);
     combination_changed := None |}.

(** [Mapping.from_combination].  [raw_truthy] is the truth value of the
    value offered as the combination and [placeholder] the list with the
    one dictionary [{"type": 99, "code": 99, "analog_threshold": 99}] as a
    value; an argument that is [None] is [None] here.  The defaults of the
    signature are in [from_combination_default]. *)
Definition from_combination (E : Env) (W X : Type)
  (raw_truthy : Raw E -> bool) (placeholder : Raw E)
  (input_combination : option (Raw E))
  (target_uinput output_symbol : option string)
  : Exception X + Object W X :=
  let input_combination :=
    match input_combination with
    | Some value => if raw_truthy value then value else placeholder
    | None => placeholder
    end in
  construct E W X MappingCls
    {| kw_input_combination := Some input_combination;
       kw_target_uinput := target_uinput;
       kw_output_symbol := output_symbol;
       kw_output_type := None;
       kw_output_code := None;
       kw_name := None;
       kw_mapping_type := None;
       kw_release_combination_keys := None;
       kw_macro_key_sleep_ms := None;
       kw_deadzone := None;
       kw_gain := None;
       kw_expo := None;
       kw_rel_rate := None;
       kw_rel_to_abs_input_cutoff := None;
       kw_release_timeout := None;
       kw_force_release_timeout := None |}.

(** [Mapping.from_combination()] with the defaults of its signature. *)
Definition from_combination_default (E : Env) (W X : Type)
  (raw_truthy : Raw E -> bool) (placeholder : Raw E)
  : Exception X + Object W X :=
  from_combination E W X raw_truthy placeholder None (Some "keyboard")
    (Some "a").

(** The truth value and the placeholder for the sample environment. *)
Definition sample_raw_truthy (value : option InputCombination) : bool :=
  match value with
  | Some (_ :: _) => true
  | _ => false
  end.

Definition sample_placeholder : option InputCombination :=
  Some [{| config_type := 99; config_code := 99;
           analog_threshold := Some 99 |}].

(** The sample environment with a keyboard layout that knows no symbol at
    all. *)
Definition sample_env_without_layout : Env :=
  {| Raw := Raw sample_env;
     raw_of := raw_of sample_env;
     InputCombination_validate := InputCombination_validate sample_env;
     empty_combination := empty_combination sample_env;
     defines_analog_input := defines_analog_input sample_env;
     find_analog_input_config := find_analog_input_config sample_env;
     keyboard_layout_get := fun _ => None;
     DISABLE_NAME := DISABLE_NAME sample_env;
     is_this_a_macro := is_this_a_macro sample_env;
     Parser_parse := fun _ _ => None;
     can_default_uinput_emit := can_default_uinput_emit sample_env |}.

(** ** The round trip and the macro parser

    [validate_symbol] hands the macro parser a mock of the candidate values
    (l.401-405).  At a first construction these are the keyword arguments
    of the caller; when [get_error] validates an instance again they are all
    of its fields, the defaults and the derived [mapping_type] among
    them. *)

(** The assumptions of [collaborators_ok] without the one on the macro
    parser: an [InputCombination] instance validates to itself, and the
    empty string is neither the disable symbol, nor a macro, nor a symbol of
    the keyboard layout. *)
Definition collaborators_basic (E : Env) : Prop :=
  (forall combination,
     InputCombination_validate E (raw_of E combination) = Some combination)
  /\ DISABLE_NAME E <> ""
  /\ is_this_a_macro E "" = false
  /\ keyboard_layout_get E "" = None.

(** What the macro parser says to the candidate [values] in
    [validate_symbol]: the message of the [MacroError] that the call of
    [Parser.parse] raises; [None] when the macro parses and when the call is
    not made (no symbol, the disable symbol, no macro). *)
Definition macro_verdict (E : Env) (values : Kwargs (Raw E)) : option string :=
  match kw_output_symbol values with
  | Some symbol =>
      if (symbol =? DISABLE_NAME E)%string then None
      else if is_this_a_macro E symbol then Parser_parse E symbol values
      else None
  | None => None
  end.





(** * Properties *)

(** ** Strings and equality tests *)

Lemma rstrip_idempotent (s : string) : rstrip (rstrip s) = rstrip s.
Proof.
  induction s as [|c s IH]; simpl; [reflexivity|].
  destruct (rstrip s) as [|a r] eqn:Hr.
  - destruct (isspace c) eqn:Hc; simpl; [reflexivity|].
    now rewrite Hc.
  - change (rstrip (String c (String a r))) with
      (match rstrip (String a r) with
       | EmptyString => if isspace c then EmptyString else String c EmptyString
       | r' => String c r'
       end).
    now rewrite IH.
Qed.

Lemma lstrip_no_leading_space (s : string) : no_leading_space (lstrip s).
Proof.
  induction s as [|c s IH]; simpl; [exact I|].
  destruct (isspace c) eqn:Hc; [exact IH|]. simpl. exact Hc.
Qed.

Lemma lstrip_fixed (s : string) : no_leading_space s -> lstrip s = s.
Proof.
  destruct s as [|c s]; simpl; [reflexivity|]. now intros ->.
Qed.

Lemma rstrip_no_leading_space (s : string) :
  no_leading_space s -> no_leading_space (rstrip s).
Proof.
  destruct s as [|c s]; simpl; [trivial|]. intros Hc.
  destruct (rstrip s); [rewrite Hc|]; simpl; exact Hc.
Qed.

Lemma strip_idempotent (s : string) : strip (strip s) = strip s.
Proof.
  unfold strip.
  rewrite (lstrip_fixed (rstrip (lstrip s))).
  - apply rstrip_idempotent.
  - apply rstrip_no_leading_space, lstrip_no_leading_space.
Qed.

Lemma opt_Z_eqb_eq (a b : option Z) : opt_Z_eqb a b = true <-> a = b.
Proof.
  destruct a, b; simpl; try (split; congruence).
  rewrite Z.eqb_eq. split; congruence.
Qed.

Lemma InputConfig_eqb_eq (a b : InputConfig) :
  InputConfig_eqb a b = true <-> a = b.
Proof.
  destruct a as [t c th], b as [t' c' th']. unfold InputConfig_eqb. simpl.
  rewrite !andb_true_iff, !Z.eqb_eq, opt_Z_eqb_eq.
  split; [intros [[-> ->] ->]; reflexivity | intros [= -> -> ->]; auto].
Qed.

Lemma InputCombination_eqb_eq (a b : InputCombination) :
  InputCombination_eqb a b = true <-> a = b.
Proof.
  revert b. induction a as [|x a IH]; intros [|y b]; simpl;
    try (split; congruence).
  rewrite andb_true_iff, InputConfig_eqb_eq, IH.
  split; [intros [-> ->]; reflexivity | intros [= -> ->]; auto].
Qed.

Lemma MappingType_of_value_value (t : MappingType) :
  MappingType_of_value (MappingType_value t) = Some t.
Proof. destruct t; reflexivity. Qed.

(** ** Assignment to an instance *)

(** The post root validators never touch the input combination. *)
Lemma validate_mapping_type_input_combination (values : Values) :
  v_input_combination (validate_mapping_type values)
  = v_input_combination values.
Proof.
  unfold validate_mapping_type.
  repeat match goal with |- context [if ?b then _ else _] => destruct b end;
    reflexivity.
Qed.

Lemma validate_output_symbol_variant_inr (v v' : Values) :
  validate_output_symbol_variant v = inr v' -> v' = v.
Proof.
  unfold validate_output_symbol_variant.
  destruct (_ && _); congruence.
Qed.

Lemma validate_output_integrity_inr (E : Env) (v v' : Values) :
  validate_output_integrity E v = inr v' -> v' = v.
Proof.
  unfold validate_output_integrity.
  repeat match goal with
         | |- context [match ?x with _ => _ end] => destruct x
         end; congruence.
Qed.

Lemma output_matches_input_inr (E : Env) (v v' : Values) :
  output_matches_input E v = inr v' -> v' = v.
Proof.
  unfold output_matches_input.
  repeat match goal with
         | |- context [match ?x with _ => _ end] => destruct x
         end; congruence.
Qed.

Lemma post_root_validator_input_combination (E : Env) (c : Class)
  (f : Values -> ErrorItem + Values) (v v' : Values) :
  In f (post_root_validators E c) -> f v = inr v' ->
  v_input_combination v' = v_input_combination v.
Proof.
  unfold post_root_validators. intros [<- | Hin].
  - intros [= <-]. apply validate_mapping_type_input_combination.
  - destruct c; simpl in Hin; try contradiction.
    destruct Hin as [<- | [<- | [<- | []]]]; intros H.
    + now rewrite (validate_output_symbol_variant_inr _ _ H).
    + now rewrite (validate_output_integrity_inr _ _ _ H).
    + now rewrite (output_matches_input_inr _ _ _ H).
Qed.

Lemma run_post_root_validators_input_combination
  (validators : list (Values -> ErrorItem + Values)) :
  (forall f v v', In f validators -> f v = inr v' ->
                  v_input_combination v' = v_input_combination v) ->
  forall values errors,
    v_input_combination
      (fst (run_post_root_validators validators values errors))
    = v_input_combination values.
Proof.
  induction validators as [|f rest IH]; intros Hf values errors; simpl;
    [reflexivity|].
  destruct (f values) as [exc | values'] eqn:Hv.
  - apply IH. intros g v v' Hg. apply Hf. now right.
  - rewrite IH.
    + eapply Hf; [now left | exact Hv].
    + intros g v v' Hg. apply Hf. now right.
Qed.

Lemma fields_of_values_input_combination (v : Values) (f : Fields) :
  fields_of_values v = Some f ->
  v_input_combination v = Some (input_combination f).
Proof.
  unfold fields_of_values.
  repeat match goal with
         | |- context [match ?x with _ => _ end] => destruct x
         end; try discriminate.
  now intros [= <-].
Qed.

Lemma store_input_combination (E : Env) (W X : Type) (c : Class)
  (a : Assignment E W X) (x : Validated) (v : Values) (symbol : option string) :
  key a <> "input_combination" ->
  validate_assigned E W X c a = Some (inr x) ->
  v_input_combination (store v symbol x) = v_input_combination v.
Proof.
  intros Hkey.
  destruct a; try (now elim Hkey); cbn [validate_assigned]; unfold map_result;
    try discriminate;
    try (intros [= <-]; reflexivity);
    match goal with
    | |- context [match ?r with inl _ => _ | inr _ => _ end] =>
        destruct r; try discriminate; intros [= <-]; reflexivity
    end.
Qed.

Lemma validate_assignment_frame (E : Env) (W X : Type)
  (self self' : Object W X) (a : Assignment E W X) :
  key a <> "input_combination" ->
  validate_assignment E W X self a = inr self' ->
  input_combination (fields self') = input_combination (fields self).
Proof.
  intros Hkey. unfold validate_assignment. cbv zeta.
  destruct (run_pre_root_validators _ _ _) as [exc | nv]; [discriminate|].
  destruct (validate_assigned E W X (cls self) a) as [[err | x]|] eqn:Hx;
    try discriminate.
  pose proof (run_post_root_validators_input_combination
                (post_root_validators E (cls self))
                (post_root_validator_input_combination E (cls self))
                (store (values_of_fields (fields self))
                   (kw_output_symbol nv) x) []) as Hpost.
  destruct (run_post_root_validators _ _ _) as [nv' errors].
  destruct errors; [|discriminate].
  destruct (fields_of_values nv') as [f|] eqn:Hf; [|discriminate].
  intros [= <-]. cbn [fst] in Hpost.
  apply fields_of_values_input_combination in Hf.
  rewrite Hpost, (store_input_combination E W X _ a x _ _ Hkey Hx) in Hf.
  cbn in Hf. unfold with_fields. cbn. congruence.
Qed.

(** pydantic's assignment of anything but the input combination leaves the
    input combination as it was. *)
Lemma BaseModel_setattr_frame (E : Env) (W X : Type) (self self' : Object W X)
  (a : Assignment E W X) :
  key a <> "input_combination" ->
  BaseModel_setattr E W X self a = inr self' ->
  input_combination (fields self') = input_combination (fields self).
Proof.
  intros Hkey. unfold BaseModel_setattr.
  destruct a; try (now elim Hkey); try discriminate;
    try (intros [= <-]; reflexivity);
    (destruct (negb (allow_mutation (cls self))); [discriminate|];
     now apply validate_assignment_frame).
Qed.

(** Registering a callback stores it and changes nothing else. *)
Lemma set_combination_changed_callback_registers (E : Env) (W X : Type)
  (self : Object W X) (callback : Callback W X) (w : W) :
  let out := set_combination_changed_callback E W X self callback w in
  raised out = None
  /\ combination_changed (self_after out) = Some callback
  /\ fields (self_after out) = fields self
  /\ callback_calls out = [].
Proof. cbn. repeat split. Qed.

(** C1.  On a mapping with a combination-changed callback registered, an
    assignment to [input_combination] during which the callback raises
    leaves the instance, and with it the field [input_combination], as it
    was, and the caller receives the callback's exception.  The callback has
    been called once, with the new and the old combination. *)
Theorem C1_rejected_combination_change (E : Env) (W X : Type)
  (self : Object W X) (callback : Callback W X) (value : Raw E)
  (new_combi : InputCombination) (w w' : W) (e : X) :
  combination_changed self = Some callback ->
  InputCombination_validate E value = Some new_combi ->
  InputCombination_eqb new_combi (input_combination (fields self)) = false ->
  callback new_combi (input_combination (fields self)) w = (w', Some e) ->
  let out := setattr E W X self (SetInputCombination value) w in
  raised out = Some (CallbackError e)
  /\ self_after out = self
  /\ input_combination (fields (self_after out))
     = input_combination (fields self)
  /\ callback_calls out = [(new_combi, input_combination (fields self))].
Proof.
  intros Hcb Hvalid Hneq Hcall. unfold setattr.
  rewrite Hcb, Hvalid. cbv zeta. rewrite Hneq, Hcall. cbn.
  repeat split.
Qed.

Lemma C1_rejected_combination_change_witness :
  let out :=
    setattr sample_env (list InputCombination) string sample_mapping
      (SetInputCombination (E := sample_env) (Some [key_config 31]))
      [[key_config 31]] in
  raised out = Some (CallbackError "combination already mapped")
  /\ self_after out = sample_mapping
  /\ input_combination (fields (self_after out)) = [key_config 30]
  /\ callback_calls out = [([key_config 31], [key_config 30])].
Proof.
  apply (C1_rejected_combination_change sample_env (list InputCombination)
           string sample_mapping sample_callback (Some [key_config 31])
           [key_config 31] [[key_config 31]] [[key_config 31]]
           "combination already mapped");
    reflexivity.
Defined.

(** C9.  On a mapping with a combination-changed callback registered,
    assigning to [input_combination] a value that validates to a combination
    equal to the current one calls the callback not at all and leaves the
    instance, and the callback's state, unchanged. *)
Theorem C9_same_combination_no_callback (E : Env) (W X : Type)
  (self : Object W X) (callback : Callback W X) (value : Raw E)
  (new_combi : InputCombination) (w : W) :
  combination_changed self = Some callback ->
  InputCombination_validate E value = Some new_combi ->
  InputCombination_eqb new_combi (input_combination (fields self)) = true ->
  let out := setattr E W X self (SetInputCombination value) w in
  callback_calls out = []
  /\ raised out = None
  /\ self_after out = self
  /\ world_after out = w.
Proof.
  intros Hcb Hvalid Heq. unfold setattr.
  rewrite Hcb, Hvalid. cbv zeta. rewrite Heq. cbn. repeat split.
Qed.

Lemma C9_same_combination_no_callback_witness :
  let out :=
    setattr sample_env (list InputCombination) string sample_mapping
      (SetInputCombination (E := sample_env) (Some [key_config 30]))
      [[key_config 30]] in
  callback_calls out = []
  /\ raised out = None
  /\ self_after out = sample_mapping
  /\ world_after out = [[key_config 30]].
Proof.
  apply (C9_same_combination_no_callback sample_env (list InputCombination)
           string sample_mapping sample_callback (Some [key_config 30])
           [key_config 30] [[key_config 30]]);
    reflexivity.
Defined.

(** C10.  Assigning under any key other than [input_combination] calls the
    combination-changed callback not at all, leaves the callback's state
    alone, and leaves the field [input_combination] at its value, whether
    the assignment succeeds or raises. *)
Theorem C10_other_keys_frame (E : Env) (W X : Type) (self : Object W X)
  (a : Assignment E W X) (w : W) :
  key a <> "input_combination" ->
  let out := setattr E W X self a w in
  callback_calls out = []
  /\ world_after out = w
  /\ input_combination (fields (self_after out))
     = input_combination (fields self).
Proof.
  intros Hkey. unfold setattr.
  assert (Hbase :
    let out :=
      match BaseModel_setattr E W X self a with
      | inl exc =>
          {| raised := Some exc; self_after := self; world_after := w;
             callback_calls := [] |}
      | inr self' =>
          {| raised := None; self_after := self'; world_after := w;
             callback_calls := [] |}
      end in
    callback_calls out = [] /\ world_after out = w
    /\ input_combination (fields (self_after out))
       = input_combination (fields self)).
  { destruct (BaseModel_setattr E W X self a) as [exc | self'] eqn:Hset;
      cbn; repeat split.
    now apply (BaseModel_setattr_frame E W X self self' a). }
  destruct a; try exact Hbase. now elim Hkey.
Qed.

Lemma C10_other_keys_frame_witness :
  let out :=
    setattr sample_env (list InputCombination) string sample_mapping
      (SetOutputSymbol (E := sample_env) (Some "b")) [] in
  callback_calls out = []
  /\ world_after out = []
  /\ input_combination (fields (self_after out)) = [key_config 30].
Proof.
  apply (C10_other_keys_frame sample_env (list InputCombination) string
           sample_mapping (SetOutputSymbol (Some "b")) []).
  discriminate.
Defined.

(** ** The derived mapping type *)

(** C2 fails as stated: with an explicit output type that is not the key
    class, without code and without symbol, the rule of the specification
    gives [analog], and [validate_mapping_type] leaves the mapping type as
    it was. *)
Lemma C2_counterexample :
  let values := sample_values (Some EV_ABS) None None None in
  v_output_type values = Some EV_ABS
  /\ EV_ABS <> EV_KEY
  /\ v_output_symbol values = None
  /\ spec_mapping_type values = Some ANALOG
  /\ v_mapping_type (validate_mapping_type values) = None.
Proof. cbn. repeat split. discriminate. Qed.

(** The other way round: a code without a type makes the mapping analog,
    where the rule of the specification keeps the previous value. *)
Lemma validate_mapping_type_code_only :
  let values := sample_values None (Some 5) None None in
  spec_mapping_type values = None
  /\ v_mapping_type (validate_mapping_type values) = Some ANALOG.
Proof. cbn. split; reflexivity. Qed.

(** C2, amended.  [validate_mapping_type] sets [mapping_type] to [analog]
    when an output code is set, the output type is not the key class (it may
    be unset) and the symbol is unset or empty; to [key_macro] when a
    non-empty symbol is set and neither type nor code is; to [key_macro]
    when the output type is the key class; and leaves it as it was in every
    other case. *)
Theorem C2_mapping_type_rule (values : Values) :
  let output_type := v_output_type values in
  let output_code := v_output_code values in
  let output_symbol := v_output_symbol values in
  let result := v_mapping_type (validate_mapping_type values) in
  (output_code <> None -> output_type <> Some EV_KEY ->
   truthy_str output_symbol = false -> result = Some ANALOG)
  /\ (output_type = None -> output_code = None ->
      truthy_str output_symbol = true -> result = Some KEY_MACRO)
  /\ (output_type = Some EV_KEY -> result = Some KEY_MACRO)
  /\ (~ (output_code <> None /\ output_type <> Some EV_KEY
         /\ truthy_str output_symbol = false) ->
      ~ (output_type = None /\ output_code = None
         /\ truthy_str output_symbol = true) ->
      output_type <> Some EV_KEY ->
      result = v_mapping_type values).
Proof.
  cbv zeta. unfold validate_mapping_type.
  destruct (opt_Z_eqb (v_output_type values) (Some EV_KEY)) eqn:Hkey.
  - apply opt_Z_eqb_eq in Hkey. rewrite Hkey. cbn.
    repeat split; try congruence; try reflexivity.
    all: repeat match goal with
           | |- context [if ?b then _ else _] => destruct b
           end; intros; cbn; try congruence.
  - assert (Hne : v_output_type values <> Some EV_KEY).
    { intros H. apply opt_Z_eqb_eq in H. congruence. }
    destruct (v_output_type values) as [t|], (v_output_code values) as [c|],
      (truthy_str (v_output_symbol values)) eqn:Hs; cbn;
      repeat split; intros; try congruence; try reflexivity;
      try tauto.
    all: exfalso;
      match goal with H : ~ (_ /\ _ /\ false = false) |- _ => apply H end;
      repeat split; congruence.
Qed.

Lemma C2_mapping_type_rule_witness :
  v_mapping_type
    (validate_mapping_type (sample_values None (Some 5) None (Some KEY_MACRO)))
  = Some ANALOG
  /\ v_mapping_type
       (validate_mapping_type
          (sample_values (Some EV_ABS) None None (Some KEY_MACRO)))
     = Some KEY_MACRO.
Proof.
  split.
  - apply (C2_mapping_type_rule
             (sample_values None (Some 5) None (Some KEY_MACRO)));
      [discriminate | discriminate | reflexivity].
  - apply (C2_mapping_type_rule
             (sample_values (Some EV_ABS) None None (Some KEY_MACRO))).
    + intros [H _]. now apply H.
    + intros [H _]. discriminate H.
    + discriminate.
Defined.

(** ** The output descriptor *)

(** What [get_output_type_code] returns in the cases where it agrees with
    its docstring: the explicit pair, and [None] without a symbol, with an
    empty symbol and with a macro. *)
Lemma get_output_type_code_explicit (E : Env) (self : Fields) (t c : Z) :
  output_type self = Some t -> output_code self = Some c ->
  get_output_type_code E self = Some (t, Some c).
Proof. unfold get_output_type_code. now intros -> ->. Qed.

Lemma get_output_type_code_unresolved (E : Env) (self : Fields) :
  output_type self = None \/ output_code self = None ->
  match output_symbol self with
  | Some symbol => symbol = "" \/ is_this_a_macro E symbol = true
  | None => True
  end ->
  get_output_type_code E self = None.
Proof.
  unfold get_output_type_code. intros Hpair Hsym.
  assert (Hrest :
    match output_symbol self with
    | Some symbol =>
        if truthy_str (Some symbol) && negb (is_this_a_macro E symbol)
        then Some (EV_KEY, keyboard_layout_get E symbol)
        else None
    | None => None
    end = None).
  { destruct (output_symbol self) as [symbol|]; [|reflexivity].
    destruct Hsym as [-> | ->]; [reflexivity|].
    now rewrite andb_false_r. }
  destruct (output_code self), (output_type self); try exact Hrest.
  destruct Hpair; discriminate.
Qed.

(** A known symbol that is no macro resolves to its code with the key
    class. *)
Lemma get_output_type_code_symbol (E : Env) (self : Fields)
  (symbol : string) (code : Z) :
  output_type self = None \/ output_code self = None ->
  output_symbol self = Some symbol -> symbol <> "" ->
  is_this_a_macro E symbol = false ->
  keyboard_layout_get E symbol = Some code ->
  get_output_type_code E self = Some (EV_KEY, Some code).
Proof.
  unfold get_output_type_code. intros Hpair -> Hne Hmacro ->.
  assert (Ht : truthy_str (Some symbol) = true).
  { cbn. apply negb_true_iff, String.eqb_neq, Hne. }
  rewrite Ht, Hmacro. cbn.
  destruct (output_code self), (output_type self); try reflexivity.
  destruct Hpair; discriminate.
Qed.

(** C6, the case in which the code departs from the claim and from its own
    docstring: for a symbol that is no macro and that the keyboard layout
    does not know, [get_output_type_code] returns the pair of the key class
    and [None], not [None]. *)
Theorem C6_unknown_symbol_returns_pair (E : Env) (self : Fields)
  (symbol : string) :
  output_type self = None \/ output_code self = None ->
  output_symbol self = Some symbol -> symbol <> "" ->
  is_this_a_macro E symbol = false ->
  keyboard_layout_get E symbol = None ->
  get_output_type_code E self = Some (EV_KEY, None)
  /\ get_output_type_code E self <> None.
Proof.
  unfold get_output_type_code. intros Hpair -> Hne Hmacro ->.
  assert (Ht : truthy_str (Some symbol) = true).
  { cbn. apply negb_true_iff, String.eqb_neq, Hne. }
  rewrite Ht, Hmacro. cbn.
  destruct (output_code self), (output_type self);
    try (split; [reflexivity | discriminate]).
  destruct Hpair; discriminate.
Qed.

Lemma C6_unknown_symbol_returns_pair_witness :
  get_output_type_code sample_env (sample_fields_with_symbol (Some "zz"))
  = Some (EV_KEY, None)
  /\ get_output_type_code sample_env (sample_fields_with_symbol (Some "zz"))
     <> None.
Proof.
  apply (C6_unknown_symbol_returns_pair sample_env
           (sample_fields_with_symbol (Some "zz")) "zz");
    try reflexivity; [now left | discriminate].
Defined.

(** ** Construction of a validated mapping *)

Lemma construct_raises (E : Env) (W X : Type) (c : Class)
  (kwargs : Kwargs (Raw E)) (values : Values) (e : ErrorItem)
  (errors : list ErrorItem) :
  validate_model E c kwargs = (values, e :: errors) ->
  construct E W X c kwargs = inl (ValidationError (e :: errors)).
Proof. unfold construct. now intros ->. Qed.

(** The post root validators of [Mapping] after [validate_mapping_type] only
    check: the errors of all three are collected on the same values. *)
Lemma run_post_root_validators_Mapping (E : Env) (values : Values)
  (errors : list ErrorItem) :
  run_post_root_validators (post_root_validators E MappingCls) values errors
  = (validate_mapping_type values,
     errors
     ++ field_errors (validate_output_symbol_variant
                        (validate_mapping_type values))
     ++ field_errors (validate_output_integrity E
                        (validate_mapping_type values))
     ++ field_errors (output_matches_input E
                        (validate_mapping_type values)))%list.
Proof.
  cbn [post_root_validators run_post_root_validators].
  set (v := validate_mapping_type values).
  destruct (validate_output_symbol_variant v) as [e1 | v1] eqn:H1;
    [| apply validate_output_symbol_variant_inr in H1; subst v1];
    (destruct (validate_output_integrity E v) as [e2 | v2] eqn:H2;
     [| apply validate_output_integrity_inr in H2; subst v2]);
    (destruct (output_matches_input E v) as [e3 | v3] eqn:H3;
     [| apply output_matches_input_inr in H3; subst v3]);
    cbn [field_errors]; rewrite <- ?app_assoc, ?app_nil_r; reflexivity.
Qed.

Lemma run_post_root_validators_other (E : Env) (c : Class) (values : Values)
  (errors : list ErrorItem) :
  c <> MappingCls ->
  run_post_root_validators (post_root_validators E c) values errors
  = (validate_mapping_type values, errors).
Proof. destruct c; [reflexivity | congruence | reflexivity]. Qed.

(** [validate_symbol] rewrites nothing but the symbol. *)
Lemma validate_symbol_inr (E : Env) (kwargs kwargs' : Kwargs (Raw E)) :
  validate_symbol E kwargs = inr kwargs' ->
  kwargs' = set_kw_output_symbol kwargs (kw_output_symbol kwargs').
Proof.
  unfold validate_symbol.
  destruct (kw_output_symbol kwargs) as [symbol|] eqn:Hs.
  - repeat match goal with
           | |- context [match ?x with _ => _ end] => destruct x
           end; try discriminate; intros [= <-]; reflexivity.
  - intros [= <-]. destruct kwargs. cbn in *. now rewrite Hs.
Qed.

(** Construction of a [Mapping] when [validate_symbol] lets the keyword
    arguments pass. *)
Lemma validate_model_Mapping (E : Env) (kwargs kwargs' : Kwargs (Raw E)) :
  validate_symbol E kwargs = inr kwargs' ->
  validate_model E MappingCls kwargs
  = (let values :=
       validate_mapping_type (fst (validate_fields E MappingCls kwargs')) in
     (values,
      snd (validate_fields E MappingCls kwargs')
      ++ field_errors (validate_output_symbol_variant values)
      ++ field_errors (validate_output_integrity E values)
      ++ field_errors (output_matches_input E values))%list).
Proof.
  intros Hpre. unfold validate_model.
  cbn [pre_root_validators run_pre_root_validators]. rewrite Hpre.
  destruct (validate_fields E MappingCls kwargs') as [values errors].
  apply run_post_root_validators_Mapping.
Qed.

(** Construction of a [Mapping] when [validate_symbol] raises. *)
Lemma validate_model_Mapping_pre_fails (E : Env) (kwargs : Kwargs (Raw E))
  (exc : ErrorItem) :
  validate_symbol E kwargs = inl exc ->
  validate_model E MappingCls kwargs = (no_values, [exc]).
Proof.
  intros Hpre. unfold validate_model.
  cbn [pre_root_validators run_pre_root_validators]. now rewrite Hpre.
Qed.

(** An error of the field [input_combination] ends up in the
    [ValidationError] of the construction. *)
Lemma construct_Mapping_combination_error (E : Env) (W X : Type)
  (kwargs kwargs' : Kwargs (Raw E)) (exc : ErrorItem) :
  validate_symbol E kwargs = inr kwargs' ->
  field_input_combination E MappingCls (kw_input_combination kwargs)
  = inl exc ->
  exists errors,
    construct E W X MappingCls kwargs = inl (ValidationError (exc :: errors)).
Proof.
  intros Hpre Hfield.
  pose proof (validate_symbol_inr E _ _ Hpre) as Hk.
  assert (Hic : kw_input_combination kwargs' = kw_input_combination kwargs)
    by (rewrite Hk; reflexivity).
  eexists. eapply construct_raises.
  rewrite (validate_model_Mapping E _ _ Hpre). cbv zeta.
  unfold validate_fields. cbn [fst snd]. rewrite Hic, Hfield.
  cbn [field_errors app]. reflexivity.
Qed.

(** Whatever [validate_symbol] raises is the only error of the
    construction. *)
Lemma construct_Mapping_pre_error (E : Env) (W X : Type)
  (kwargs : Kwargs (Raw E)) (exc : ErrorItem) :
  validate_symbol E kwargs = inl exc ->
  construct E W X MappingCls kwargs = inl (ValidationError [exc]).
Proof.
  intros Hpre. eapply construct_raises.
  now apply validate_model_Mapping_pre_fails.
Qed.

Lemma trigger_point_loop_find (rest : list InputConfig) :
  trigger_point_loop rest
  = option_map TriggerPointInRangeError
      (find trigger_point_out_of_range rest).
Proof.
  induction rest as [|c rest IH]; cbn; [reflexivity|].
  now destruct (trigger_point_out_of_range c).
Qed.

Lemma trigger_point_out_of_range_intro (input_config : InputConfig) (t : Z) :
  config_type input_config = EV_ABS ->
  analog_threshold input_config = Some t ->
  100 <= Z.abs t ->
  trigger_point_out_of_range input_config = true.
Proof.
  unfold trigger_point_out_of_range. intros -> -> Ht. cbn.
  apply andb_true_iff. split; [|now apply Z.leb_le].
  apply negb_true_iff, Z.eqb_neq. lia.
Qed.

Lemma find_In_some {A} (f : A -> bool) (l : list A) (x : A) :
  In x l -> f x = true -> exists y, find f l = Some y.
Proof.
  intros Hin Hf. destruct (find f l) as [y|] eqn:Hfind; [now exists y|].
  pose proof (find_none f l Hfind x Hin). congruence.
Qed.

(** ** Too many analog inputs *)

(** C4 fails as stated: with two analog-defining constituents and a symbol
    the keyboard layout does not know, the [ValidationError] holds the
    unknown-symbol error and nothing else. *)
Lemma C4_counterexample :
  let combination := [abs_config 0 None; abs_config 1 None] in
  let kwargs :=
    sample_kwargs (Some combination) (Some "keyboard") (Some "qq") None None in
  filter (defines_analog_input sample_env) combination = combination
  /\ construct sample_env unit string MappingCls kwargs
     = inl (ValidationError [OutputSymbolUnknownError "qq"])
  /\ ~ In (OnlyOneAnalogInputError combination)
          [OutputSymbolUnknownError "qq"].
Proof.
  cbv zeta. split; [reflexivity|]. split; [reflexivity|].
  intros [H | []]. discriminate H.
Qed.

(** C4, amended.  Construction of a [Mapping] from a combination with two or
    more analog-defining constituents always fails.  When [validate_symbol]
    lets the keyword arguments pass, the first error of the
    [ValidationError] is the multiple-analog-inputs error with all the
    analog-defining constituents; when [validate_symbol] raises, its error
    is the only one. *)
Theorem C4_two_analog_inputs (E : Env) (W X : Type) (kwargs : Kwargs (Raw E))
  (value : Raw E) (combination : InputCombination) :
  kw_input_combination kwargs = Some value ->
  InputCombination_validate E value = Some combination ->
  (1 < length (filter (defines_analog_input E) combination))%nat ->
  exists errors,
    construct E W X MappingCls kwargs = inl (ValidationError errors)
    /\ (forall kwargs', validate_symbol E kwargs = inr kwargs' ->
        hd_error errors
        = Some (OnlyOneAnalogInputError
                  (filter (defines_analog_input E) combination)))
    /\ (forall exc, validate_symbol E kwargs = inl exc -> errors = [exc]).
Proof.
  intros Hkw Hvalid Hlen.
  assert (Hfield :
    field_input_combination E MappingCls (kw_input_combination kwargs)
    = inl (OnlyOneAnalogInputError
             (filter (defines_analog_input E) combination))).
  { rewrite Hkw. cbn [field_input_combination].
    unfold validate_input_combination, only_one_analog_input.
    rewrite Hvalid.
    replace (1 <? Z.of_nat (length (filter (defines_analog_input E)
                                      combination))) with true;
      [reflexivity|].
    symmetry. apply Z.ltb_lt. lia. }
  destruct (validate_symbol E kwargs) as [exc | kwargs'] eqn:Hpre.
  - exists [exc]. split; [now apply construct_Mapping_pre_error|].
    split; [discriminate | now intros ? [= <-]].
  - destruct (construct_Mapping_combination_error E W X _ _ _ Hpre Hfield)
      as [errors Herr].
    eexists. split; [exact Herr|]. split; [reflexivity | discriminate].
Qed.

Lemma C4_two_analog_inputs_witness :
  exists errors,
    construct sample_env unit string MappingCls
      (sample_kwargs (Some [abs_config 0 None; abs_config 1 None])
         (Some "keyboard") (Some "a") None None)
    = inl (ValidationError errors)
    /\ (forall kwargs',
        validate_symbol sample_env
          (sample_kwargs (Some [abs_config 0 None; abs_config 1 None])
             (Some "keyboard") (Some "a") None None) = inr kwargs' ->
        hd_error errors
        = Some (OnlyOneAnalogInputError
                  (filter (defines_analog_input sample_env)
                     [abs_config 0 None; abs_config 1 None])))
    /\ (forall exc,
        validate_symbol sample_env
          (sample_kwargs (Some [abs_config 0 None; abs_config 1 None])
             (Some "keyboard") (Some "a") None None) = inl exc ->
        errors = [exc]).
Proof.
  apply (C4_two_analog_inputs sample_env unit string
           (sample_kwargs (Some [abs_config 0 None; abs_config 1 None])
              (Some "keyboard") (Some "a") None None)
           (Some [abs_config 0 None; abs_config 1 None])
           [abs_config 0 None; abs_config 1 None]);
    [reflexivity | reflexivity | cbn; lia].
Defined.

(** ** The trigger point *)

(** C3 fails as stated: with a threshold of 100 on an absolute axis and a
    symbol the keyboard layout does not know, the [ValidationError] holds
    the unknown-symbol error and nothing else. *)
Lemma C3_counterexample :
  let input_config := abs_config 0 (Some 100) in
  let kwargs :=
    sample_kwargs (Some [input_config]) (Some "keyboard") (Some "qq")
      None None in
  defines_analog_input sample_env input_config = true
  /\ config_type input_config = EV_ABS
  /\ analog_threshold input_config = Some 100
  /\ construct sample_env unit string MappingCls kwargs
     = inl (ValidationError [OutputSymbolUnknownError "qq"])
  /\ ~ In (TriggerPointInRangeError input_config)
          [OutputSymbolUnknownError "qq"].
Proof.
  cbv zeta. repeat (split; [reflexivity|]).
  intros [H | []]. discriminate H.
Qed.

(** The range check is for absolute axes only: a mapping from a relative
    axis with the same threshold is constructed. *)
Lemma trigger_point_in_range_relative_axis :
  trigger_point_in_range [rel_config 0 (Some 100)]
  = inr [rel_config 0 (Some 100)]
  /\ exists m,
       construct sample_env unit string MappingCls
         (sample_kwargs (Some [rel_config 0 (Some 100)]) (Some "keyboard")
            (Some "disable") None None) = inr m.
Proof. split; [reflexivity | eexists; reflexivity]. Qed.

(** With two analog-defining constituents, one of them out of range, the
    chain of field validators stops at the first of the two errors. *)
Lemma trigger_point_after_only_one_analog_input :
  let combination := [abs_config 0 (Some 100); abs_config 1 None] in
  construct sample_env unit string MappingCls
    (sample_kwargs (Some combination) (Some "keyboard") (Some "a") None None)
  = inl (ValidationError
           [OnlyOneAnalogInputError combination; AssertionError]).
Proof. reflexivity. Qed.

(** C3, amended.  Construction of a [Mapping] from a combination with a
    constituent of the absolute-axis class whose threshold has magnitude 100
    or more always fails.  When [validate_symbol] raises, its error is the
    only one.  Otherwise the first error is the multiple-analog-inputs error
    if the combination has more than one analog-defining constituent, and
    else the out-of-range error with the first constituent of the
    combination that is out of range. *)
Theorem C3_trigger_point_out_of_range (E : Env) (W X : Type)
  (kwargs : Kwargs (Raw E)) (value : Raw E) (combination : InputCombination)
  (input_config : InputConfig) (t : Z) :
  kw_input_combination kwargs = Some value ->
  InputCombination_validate E value = Some combination ->
  In input_config combination ->
  config_type input_config = EV_ABS ->
  analog_threshold input_config = Some t ->
  100 <= Z.abs t ->
  exists errors,
    construct E W X MappingCls kwargs = inl (ValidationError errors)
    /\ (forall exc, validate_symbol E kwargs = inl exc -> errors = [exc])
    /\ (forall kwargs', validate_symbol E kwargs = inr kwargs' ->
        ((1 < length (filter (defines_analog_input E) combination))%nat ->
         hd_error errors
         = Some (OnlyOneAnalogInputError
                   (filter (defines_analog_input E) combination)))
        /\ ((length (filter (defines_analog_input E) combination) <= 1)%nat ->
            exists offender,
              find trigger_point_out_of_range combination = Some offender
              /\ hd_error errors = Some (TriggerPointInRangeError offender))).
Proof.
  intros Hkw Hvalid Hin Htype Hthreshold Ht.
  destruct (find_In_some trigger_point_out_of_range combination input_config
              Hin (trigger_point_out_of_range_intro _ _ Htype Hthreshold Ht))
    as [offender Hfind].
  destruct (validate_symbol E kwargs) as [exc | kwargs'] eqn:Hpre.
  { exists [exc]. split; [now apply construct_Mapping_pre_error|].
    split; [now intros ? [= <-] | discriminate]. }
  assert (Hfield :
    field_input_combination E MappingCls (kw_input_combination kwargs)
    = inl (if 1 <? Z.of_nat (length (filter (defines_analog_input E)
                                       combination))
           then OnlyOneAnalogInputError
                  (filter (defines_analog_input E) combination)
           else TriggerPointInRangeError offender)).
  { rewrite Hkw. cbn [field_input_combination].
    unfold validate_input_combination, only_one_analog_input.
    rewrite Hvalid.
    destruct (1 <? _); [reflexivity|].
    unfold trigger_point_in_range.
    now rewrite trigger_point_loop_find, Hfind. }
  destruct (construct_Mapping_combination_error E W X _ _ _ Hpre Hfield)
    as [errors Herr].
  eexists. split; [exact Herr|]. split; [discriminate|].
  intros _ _. cbn [hd_error]. split; intros Hlen.
  - replace (1 <? _) with true; [reflexivity|].
    symmetry. apply Z.ltb_lt. lia.
  - exists offender. split; [exact Hfind|].
    replace (1 <? _) with false; [reflexivity|].
    symmetry. apply Z.ltb_ge. lia.
Qed.

Lemma C3_trigger_point_out_of_range_witness :
  let combination := [key_config 30; abs_config 0 (Some (-100))] in
  let kwargs :=
    sample_kwargs (Some combination) (Some "keyboard") (Some "a") None None in
  exists errors,
    construct sample_env unit string MappingCls kwargs
    = inl (ValidationError errors)
    /\ (forall exc, validate_symbol sample_env kwargs = inl exc ->
        errors = [exc])
    /\ (forall kwargs', validate_symbol sample_env kwargs = inr kwargs' ->
        ((1 < length (filter (defines_analog_input sample_env)
                        combination))%nat ->
         hd_error errors
         = Some (OnlyOneAnalogInputError
                   (filter (defines_analog_input sample_env) combination)))
        /\ ((length (filter (defines_analog_input sample_env) combination)
             <= 1)%nat ->
            exists offender,
              find trigger_point_out_of_range combination = Some offender
              /\ hd_error errors = Some (TriggerPointInRangeError offender))).
Proof.
  cbv zeta.
  apply (C3_trigger_point_out_of_range sample_env unit string
           (sample_kwargs (Some [key_config 30; abs_config 0 (Some (-100))])
              (Some "keyboard") (Some "a") None None)
           (Some [key_config 30; abs_config 0 (Some (-100))])
           [key_config 30; abs_config 0 (Some (-100))]
           (abs_config 0 (Some (-100))) (-100));
    [reflexivity | reflexivity | right; left; reflexivity | reflexivity
    | reflexivity | cbn; lia].
Defined.

(** ** Normalisation of the symbol *)

(** What [validate_symbol] leaves in place of the symbol when it passes: the
    empty string becomes [None], anything else is stripped. *)
Lemma validate_symbol_normalizes (E : Env) (kwargs kwargs' : Kwargs (Raw E)) :
  validate_symbol E kwargs = inr kwargs' ->
  kw_output_symbol kwargs'
  = match kw_output_symbol kwargs with
    | None => None
    | Some symbol => if (symbol =? "")%string then None
                     else Some (strip symbol)
    end.
Proof.
  unfold validate_symbol.
  destruct (kw_output_symbol kwargs) as [symbol|] eqn:Hs.
  - destruct (symbol =? "")%string; [now intros [= <-]|].
    repeat match goal with
           | |- context [match ?x with _ => _ end] => destruct x
           end; try discriminate; intros [= <-]; reflexivity.
  - now intros [= <-].
Qed.

(** C7, the case in which the code departs from the claim: a symbol that is
    not empty but consists of white space only is stripped to the empty
    string after the test for the empty string, and the empty string is then
    looked up like any other symbol.  Where the collaborators do not accept
    the empty string, construction fails with the unknown-symbol error. *)
Theorem C7_whitespace_symbol_is_unknown (E : Env) (W X : Type)
  (kwargs : Kwargs (Raw E)) (symbol : string) :
  kw_output_symbol kwargs = Some symbol ->
  symbol <> "" ->
  strip symbol = "" ->
  DISABLE_NAME E <> "" ->
  is_this_a_macro E "" = false ->
  keyboard_layout_get E "" = None ->
  construct E W X MappingCls kwargs
  = inl (ValidationError [OutputSymbolUnknownError ""]).
Proof.
  intros Hs Hne Hstrip Hdisable Hmacro Hlayout.
  apply construct_Mapping_pre_error. unfold validate_symbol.
  rewrite Hs.
  apply String.eqb_neq in Hne. rewrite Hne. cbv zeta. rewrite Hstrip.
  assert (Hd : ("" =? DISABLE_NAME E)%string = false).
  { apply String.eqb_neq. congruence. }
  now rewrite Hd, Hmacro, Hlayout.
Qed.

Lemma C7_whitespace_symbol_is_unknown_witness :
  construct sample_env unit string MappingCls
    (sample_kwargs (Some [key_config 3]) (Some "keyboard") (Some "  ")
       (Some EV_KEY) (Some 30))
  = inl (ValidationError [OutputSymbolUnknownError ""]).
Proof.
  apply (C7_whitespace_symbol_is_unknown sample_env unit string
           (sample_kwargs (Some [key_config 3]) (Some "keyboard") (Some "  ")
              (Some EV_KEY) (Some 30)) "  ");
    try reflexivity; discriminate.
Defined.

(** The same keyword arguments without a symbol, and with the empty symbol,
    give a mapping. *)
Lemma absent_symbol_constructs :
  (exists m,
     construct sample_env unit string MappingCls
       (sample_kwargs (Some [key_config 3]) (Some "keyboard") None
          (Some EV_KEY) (Some 30)) = inr m)
  /\ (exists m,
        construct sample_env unit string MappingCls
          (sample_kwargs (Some [key_config 3]) (Some "keyboard") (Some "")
             (Some EV_KEY) (Some 30)) = inr m).
Proof. split; eexists; reflexivity. Qed.

(** ** A macro next to an explicit type or code *)

(** C8.  When the symbol, stripped, is a macro that the parser accepts, and
    the output type or the output code is set as well, construction of a
    [Mapping] fails and the [ValidationError] carries the
    macro-but-type-or-code-set error. *)
Theorem C8_macro_with_type_or_code (E : Env) (W X : Type)
  (kwargs : Kwargs (Raw E)) (symbol : string) :
  kw_output_symbol kwargs = Some symbol ->
  symbol <> "" ->
  is_this_a_macro E (strip symbol) = true ->
  Parser_parse E (strip symbol)
    (set_kw_output_symbol kwargs (Some (strip symbol))) = None ->
  kw_output_type kwargs <> None \/ kw_output_code kwargs <> None ->
  exists errors,
    construct E W X MappingCls kwargs = inl (ValidationError errors)
    /\ In MacroButTypeOrCodeSetError errors.
Proof.
  intros Hs Hne Hmacro Hparse Hset.
  assert (Hpre : validate_symbol E kwargs
                 = inr (set_kw_output_symbol kwargs (Some (strip symbol)))).
  { unfold validate_symbol. rewrite Hs.
    apply String.eqb_neq in Hne. rewrite Hne. cbv zeta.
    destruct (strip symbol =? DISABLE_NAME E)%string; [reflexivity|].
    now rewrite Hmacro, Hparse. }
  pose proof (validate_model_Mapping E _ _ Hpre) as Hmodel.
  cbv zeta in Hmodel.
  set (values := validate_mapping_type
                   (fst (validate_fields E MappingCls
                           (set_kw_output_symbol kwargs
                              (Some (strip symbol)))))) in *.
  assert (Hintegrity :
    validate_output_integrity E values = inl MacroButTypeOrCodeSetError).
  { assert (Hv : v_output_symbol values = Some (strip symbol)
                 /\ v_output_type values = kw_output_type kwargs
                 /\ v_output_code values = kw_output_code kwargs).
    { subst values. unfold validate_mapping_type, validate_fields.
      cbn [fst].
      repeat match goal with
             | |- context [if ?b then _ else _] => destruct b
             end; cbn; auto. }
    destruct Hv as (Hvs & Hvt & Hvc).
    unfold validate_output_integrity. rewrite Hvs, Hvt, Hvc, Hmacro.
    destruct (kw_output_type kwargs), (kw_output_code kwargs); cbn;
      try reflexivity.
    destruct Hset; congruence. }
  rewrite Hintegrity in Hmodel. cbn [field_errors] in Hmodel.
  match type of Hmodel with
  | _ = (_, ?l) => destruct l as [|e errors] eqn:Hl
  end.
  - exfalso.
    apply (f_equal (@length ErrorItem)) in Hl.
    rewrite !length_app in Hl. cbn in Hl. lia.
  - exists (e :: errors). split; [eapply construct_raises, Hmodel|].
    rewrite <- Hl. apply in_or_app. right. apply in_or_app. right.
    now left.
Qed.

Lemma C8_macro_with_type_or_code_witness :
  exists errors,
    construct sample_env unit string MappingCls
      (sample_kwargs (Some [key_config 3]) (Some "keyboard")
         (Some "key(a)") (Some EV_KEY) (Some 30))
    = inl (ValidationError errors)
    /\ In MacroButTypeOrCodeSetError errors.
Proof.
  apply (C8_macro_with_type_or_code sample_env unit string
           (sample_kwargs (Some [key_config 3]) (Some "keyboard")
              (Some "key(a)") (Some EV_KEY) (Some 30)) "key(a)");
    try reflexivity; [discriminate | left; discriminate].
Defined.

(** ** The round trip through the dictionary *)

Lemma validate_mapping_type_set (values : Values) :
  validate_mapping_type values
  = set_v_mapping_type values
      (v_mapping_type (validate_mapping_type values)).
Proof.
  unfold validate_mapping_type.
  repeat match goal with |- context [if ?b then _ else _] => destruct b end;
    cbn; try reflexivity.
  all: destruct values; reflexivity.
Qed.

Lemma validate_mapping_type_idempotent (values : Values) :
  validate_mapping_type (validate_mapping_type values)
  = validate_mapping_type values.
Proof.
  destruct values as [ic tu os ot oc nm mt rck ms dz g ex rr cut rt frt].
  unfold validate_mapping_type, truthy_str, opt_Z_eqb, EV_KEY.
  destruct ot as [t|], oc as [c|], os as [s|];
    try destruct (t =? 1) eqn:Ht; try destruct (s =? "")%string eqn:Hs;
    cbn; rewrite ?Ht, ?Hs; cbn; rewrite ?Ht, ?Hs; reflexivity.
Qed.

Lemma fields_of_values_of_fields (f : Fields) :
  fields_of_values (values_of_fields f) = Some f.
Proof. destruct f; reflexivity. Qed.

Lemma values_of_fields_of_values (v : Values) (f : Fields) :
  fields_of_values v = Some f -> values_of_fields f = v.
Proof.
  destruct v as [ic tu os ot oc nm mt rck ms dz g ex rr cut rt frt].
  unfold fields_of_values. cbn.
  destruct ic, rck, ms, dz, g, ex, rr, cut, rt, frt; try discriminate.
  now intros [= <-].
Qed.

Lemma set_kw_output_symbol_same (R : Type) (k : Kwargs R) :
  set_kw_output_symbol k (kw_output_symbol k) = k.
Proof. destruct k; reflexivity. Qed.

Lemma with_default_ge0 (loc : string) (given : option Z) (z : Z) :
  field_value (with_default (validate_ge0 loc) 0 given) = Some z ->
  (0 <=? z) = true.
Proof.
  unfold with_default, validate_ge0.
  destruct given as [z'|]; cbn; [|now intros [= <-]].
  destruct (0 <=? z') eqn:Hz; cbn; [now intros [= <-] | discriminate].
Qed.

Lemma with_default_positive (loc : string) (default : Z) (given : option Z)
  (z : Z) :
  (0 <? default) = true ->
  field_value (with_default (validate_positive loc) default given) = Some z ->
  (0 <? z) = true.
Proof.
  unfold with_default, validate_positive. intros Hd.
  destruct given as [z'|]; cbn; [|now intros [= <-]].
  destruct (0 <? z') eqn:Hz; cbn; [now intros [= <-] | discriminate].
Qed.

Lemma with_default_between (loc : string) (lo hi default : Q)
  (given : option Q) (q : Q) :
  Qle_bool lo default = true -> Qle_bool default hi = true ->
  field_value (with_default (validate_between loc lo hi) default given)
  = Some q ->
  Qle_bool lo q = true /\ Qle_bool q hi = true.
Proof.
  unfold with_default, validate_between. intros Hlo Hhi.
  destruct given as [q'|]; cbn; [|now intros [= <-]].
  destruct (Qle_bool lo q') eqn:H1; cbn; [|discriminate].
  destruct (Qle_bool q' hi) eqn:H2; cbn; [now intros [= <-] | discriminate].
Qed.

Lemma with_default_positive_float (loc : string) (default : Q)
  (given : option Q) (q : Q) :
  Qle_bool default 0 = false ->
  field_value (with_default (validate_positive_float loc) default given)
  = Some q ->
  Qle_bool q 0 = false.
Proof.
  unfold with_default, validate_positive_float. intros Hd.
  destruct given as [q'|]; cbn; [|now intros [= <-]].
  destruct (Qle_bool q' 0) eqn:H1; cbn; [discriminate | now intros [= <-]].
Qed.

Lemma numeric_ok_validate_fields (E : Env) (c : Class)
  (kwargs : Kwargs (Raw E)) :
  numeric_ok (fst (validate_fields E c kwargs)).
Proof.
  unfold numeric_ok, validate_fields.
  cbn [fst v_macro_key_sleep_ms v_deadzone v_expo v_rel_rate
         v_rel_to_abs_input_cutoff v_release_timeout].
  split; [intros z; apply with_default_ge0|].
  split; [intros q; now apply with_default_between|].
  split; [intros q; now apply with_default_between|].
  split; [intros z; now apply with_default_positive|].
  split; [intros z; now apply with_default_positive|].
  intros q; now apply with_default_positive_float.
Qed.

Lemma numeric_ok_validate_mapping_type (v : Values) :
  numeric_ok v -> numeric_ok (validate_mapping_type v).
Proof. rewrite validate_mapping_type_set. exact (fun H => H). Qed.

Lemma required_ok_validate_mapping_type (E : Env) (v : Values) :
  required_ok E v -> required_ok E (validate_mapping_type v).
Proof. rewrite validate_mapping_type_set. exact (fun H => H). Qed.

Lemma only_one_analog_input_inr (E : Env) (c c' : InputCombination) :
  only_one_analog_input E c = inr c' -> c' = c.
Proof.
  unfold only_one_analog_input. destruct (1 <? _); congruence.
Qed.

Lemma trigger_point_in_range_inr (c c' : InputCombination) :
  trigger_point_in_range c = inr c' -> c' = c.
Proof.
  unfold trigger_point_in_range. destruct (trigger_point_loop c); congruence.
Qed.

(** What a run of the field validators of [Mapping] without error says
    about the values. *)
Lemma validate_fields_Mapping_ok (E : Env) (kwargs : Kwargs (Raw E))
  (values : Values) :
  validate_fields E MappingCls kwargs = (values, []) ->
  required_ok E values
  /\ v_target_uinput values = kw_target_uinput kwargs
  /\ v_output_symbol values = kw_output_symbol kwargs.
Proof.
  unfold validate_fields. intros [= <- Herr].
  apply app_eq_nil in Herr. destruct Herr as [Hic Herr].
  apply app_eq_nil in Herr. destruct Herr as [Htu _].
  unfold required_ok.
  cbn [v_input_combination v_target_uinput v_output_symbol].
  split; [split|split; [|reflexivity]].
  - destruct (kw_input_combination kwargs) as [value|];
      cbn [field_input_combination] in *; [|discriminate].
    unfold validate_input_combination in *.
    destruct (InputCombination_validate E value) as [c|]; [|discriminate].
    destruct (only_one_analog_input E c) as [e | c1] eqn:H1; [discriminate|].
    pose proof (only_one_analog_input_inr E _ _ H1); subst c1.
    destruct (trigger_point_in_range c) as [e | c2] eqn:H2; [discriminate|].
    pose proof (trigger_point_in_range_inr _ _ H2); subst c2.
    exists c. cbn. auto.
  - unfold validate_target_uinput in *.
    destruct (kw_target_uinput kwargs) as [s|]; [|discriminate].
    destruct (is_KnownUinput s) eqn:Hs; [|discriminate].
    exists s. cbn. auto.
  - unfold validate_target_uinput in *.
    destruct (kw_target_uinput kwargs) as [s|]; [|discriminate].
    destruct (is_KnownUinput s) eqn:Hs; [|discriminate].
    reflexivity.
Qed.

(** The field validators accept the dictionary of an instance whose values
    they have accepted before, and give the same values. *)
Lemma validate_fields_dict (E : Env) (c : Class) (f : Fields) :
  (forall combination,
     InputCombination_validate E (raw_of E combination) = Some combination) ->
  numeric_ok (values_of_fields f) ->
  (c = MappingCls -> required_ok E (values_of_fields f)) ->
  validate_fields E c (dict E f) = (values_of_fields f, []).
Proof.
  intros Hvalid (Hms & Hdz & Hex & Hrr & Hcut & Hrt) Hreq.
  cbn in Hms, Hdz, Hex, Hrr, Hcut, Hrt.
  specialize (Hms _ eq_refl). destruct (Hdz _ eq_refl) as [Hdz1 Hdz2].
  destruct (Hex _ eq_refl) as [Hex1 Hex2].
  specialize (Hrr _ eq_refl). specialize (Hcut _ eq_refl).
  specialize (Hrt _ eq_refl).
  assert (Hic : field_input_combination E c
                  (Some (raw_of E (input_combination f)))
                = inr (input_combination f)).
  { cbn. unfold validate_input_combination. rewrite Hvalid.
    destruct c; try reflexivity.
    destruct (Hreq eq_refl) as [(comb & [= <-] & H1 & H2) _].
    now rewrite H1. }
  assert (Htu : validate_target_uinput c (target_uinput f)
                = inr (target_uinput f)).
  { destruct c; try reflexivity.
    destruct (Hreq eq_refl) as [_ (s & Hs & Hknown)]. cbn in Hs.
    cbn. now rewrite Hs, Hknown. }
  assert (Hmt : validate_mapping_type_field
                  (option_map MappingType_value (mapping_type f))
                = inr (mapping_type f)).
  { destruct (mapping_type f) as [t|]; [|reflexivity].
    cbn. now rewrite MappingType_of_value_value. }
  unfold validate_fields, dict.
  cbn [kw_input_combination kw_target_uinput kw_output_symbol kw_output_type
         kw_output_code kw_name kw_mapping_type kw_release_combination_keys
         kw_macro_key_sleep_ms kw_deadzone kw_gain kw_expo kw_rel_rate
         kw_rel_to_abs_input_cutoff kw_release_timeout
         kw_force_release_timeout].
  rewrite Hic, Htu, Hmt.
  unfold with_default, validate_ge0, validate_positive, validate_between,
    validate_positive_float.
  rewrite Hms, Hdz1, Hdz2, Hex1, Hex2, Hrr, Hcut, Hrt.
  reflexivity.
Qed.

(** An instance of [UIMapping] or [MappingData] is rebuilt from its own
    dictionary. *)
Lemma construct_dict_permissive (E : Env) (W X : Type) (c : Class)
  (f : Fields) :
  c <> MappingCls ->
  (forall combination,
     InputCombination_validate E (raw_of E combination) = Some combination) ->
  numeric_ok (values_of_fields f) ->
  validate_mapping_type (values_of_fields f) = values_of_fields f ->
  construct E W X c (dict E f)
  = inr {| cls := c; fields := f; combination_changed := None |}.
Proof.
  intros Hc Hvalid Hnum Hstable. unfold construct, validate_model.
  replace (pre_root_validators E c) with
    (@nil (Kwargs (Raw E) -> ErrorItem + Kwargs (Raw E)))
    by (destruct c; [reflexivity | congruence | reflexivity]).
  cbn [run_pre_root_validators].
  rewrite (validate_fields_dict E c f Hvalid Hnum) by congruence.
  rewrite (run_post_root_validators_other E c _ _ Hc), Hstable.
  now rewrite fields_of_values_of_fields.
Qed.

(** What a successful construction of a [Mapping] has gone through. *)
Lemma construct_Mapping_inr (E : Env) (W X : Type) (kwargs : Kwargs (Raw E))
  (m : Object W X) :
  construct E W X MappingCls kwargs = inr m ->
  exists kwargs' values,
    validate_symbol E kwargs = inr kwargs'
    /\ validate_fields E MappingCls kwargs' = (values, [])
    /\ validate_output_symbol_variant (validate_mapping_type values)
       = inr (validate_mapping_type values)
    /\ validate_output_integrity E (validate_mapping_type values)
       = inr (validate_mapping_type values)
    /\ output_matches_input E (validate_mapping_type values)
       = inr (validate_mapping_type values)
    /\ fields_of_values (validate_mapping_type values) = Some (fields m)
    /\ m = {| cls := MappingCls; fields := fields m;
              combination_changed := None |}.
Proof.
  intros H.
  destruct (validate_symbol E kwargs) as [exc | kwargs'] eqn:Hpre.
  { rewrite (construct_Mapping_pre_error E W X _ _ Hpre) in H.
    discriminate. }
  unfold construct in H. rewrite (validate_model_Mapping E _ _ Hpre) in H.
  cbv zeta in H.
  destruct (validate_fields E MappingCls kwargs') as [values errs] eqn:Hf.
  cbn [fst snd] in H.
  set (v := validate_mapping_type values) in *.
  match type of H with
  | match ?l with _ => _ end = _ => destruct l as [|e l'] eqn:Hl
  end; [|discriminate].
  apply app_eq_nil in Hl. destruct Hl as [-> Hl].
  apply app_eq_nil in Hl. destruct Hl as [H1 Hl].
  apply app_eq_nil in Hl. destruct Hl as [H2 H3].
  destruct (fields_of_values v) as [f|] eqn:Hfields; [|discriminate].
  injection H as <-.
  destruct (validate_output_symbol_variant v) as [e1 | v1] eqn:Hv1;
    [discriminate|].
  destruct (validate_output_integrity E v) as [e2 | v2] eqn:Hv2;
    [discriminate|].
  destruct (output_matches_input E v) as [e3 | v3] eqn:Hv3; [discriminate|].
  pose proof (validate_output_symbol_variant_inr _ _ Hv1).
  pose proof (validate_output_integrity_inr _ _ _ Hv2).
  pose proof (output_matches_input_inr _ _ _ Hv3). subst v1 v2 v3.
  exists kwargs', values. subst v. cbn [fields].
  repeat split; assumption.
Qed.

(** [validate_symbol] on keyword arguments whose symbol is already
    normalised and not empty: the symbol stays, and the rules of the symbol
    decide. *)
Lemma validate_symbol_stripped (E : Env) (k : Kwargs (Raw E))
  (symbol : string) :
  kw_output_symbol k = Some symbol ->
  symbol <> "" ->
  strip symbol = symbol ->
  validate_symbol E k
  = if (symbol =? DISABLE_NAME E)%string then inr k
    else if is_this_a_macro E symbol then
      match Parser_parse E symbol k with
      | Some msg => inl (MacroError msg)
      | None => inr k
      end
    else
      match keyboard_layout_get E symbol with
      | None => inl (OutputSymbolUnknownError symbol)
      | Some code =>
          match kw_target_uinput k with
          | Some target =>
              if negb (can_default_uinput_emit E target EV_KEY code)
              then inl (SymbolNotAvailableInTargetError symbol target)
              else inr k
          | None => inr k
          end
      end.
Proof.
  intros Hs Hne Hstrip. unfold validate_symbol. rewrite Hs.
  apply String.eqb_neq in Hne. rewrite Hne. cbv zeta. rewrite Hstrip.
  rewrite <- Hs, set_kw_output_symbol_same. reflexivity.
Qed.

(** Keyword arguments that carry the symbol and the target which
    [validate_symbol] has let pass are let pass again, unchanged. *)
Lemma validate_symbol_again (E : Env) (kwargs kwargs' k : Kwargs (Raw E)) :
  collaborators_ok E ->
  validate_symbol E kwargs = inr kwargs' ->
  kw_output_symbol k = kw_output_symbol kwargs' ->
  kw_target_uinput k = kw_target_uinput kwargs ->
  validate_symbol E k = inr k.
Proof.
  intros (_ & Hparse & Hdisable & Hmacro & Hlayout) Hpre Hsym Htarget.
  unfold validate_symbol in Hpre.
  destruct (kw_output_symbol kwargs) as [s|] eqn:Hs.
  2:{ injection Hpre as <-. rewrite Hs in Hsym.
      unfold validate_symbol. now rewrite Hsym. }
  destruct (s =? "")%string eqn:Hempty.
  { injection Hpre as <-. cbn in Hsym.
    unfold validate_symbol. now rewrite Hsym. }
  cbv zeta in Hpre.
  assert (Hk : kw_output_symbol k = Some (strip s)).
  { rewrite Hsym.
    repeat match type of Hpre with
           | context [match ?x with _ => _ end] => destruct x
           end; try discriminate; injection Hpre as <-; reflexivity. }
  assert (Hne : strip s <> "").
  { intros Hz. rewrite Hz in Hpre.
    assert (Hd : ("" =? DISABLE_NAME E)%string = false)
      by (apply String.eqb_neq; congruence).
    rewrite Hd, Hmacro, Hlayout in Hpre. discriminate. }
  rewrite (validate_symbol_stripped E k (strip s) Hk Hne
             (strip_idempotent s)).
  destruct (strip s =? DISABLE_NAME E)%string; [reflexivity|].
  destruct (is_this_a_macro E (strip s)).
  - rewrite (Hparse _ k (set_kw_output_symbol kwargs (Some (strip s)))).
    destruct (Parser_parse E (strip s) _); [discriminate | reflexivity].
  - destruct (keyboard_layout_get E (strip s)) as [code|]; [|discriminate].
    rewrite Htarget. cbn [kw_target_uinput set_kw_output_symbol] in Hpre.
    destruct (kw_target_uinput kwargs) as [target|]; [|reflexivity].
    destruct (negb (can_default_uinput_emit E target EV_KEY code));
      [discriminate | reflexivity].
Qed.

(** What holds of the fields of a validated mapping. *)
Lemma construct_Mapping_fields (E : Env) (W X : Type)
  (kwargs : Kwargs (Raw E)) (m : Object W X) :
  collaborators_ok E ->
  construct E W X MappingCls kwargs = inr m ->
  m = {| cls := MappingCls; fields := fields m; combination_changed := None |}
  /\ numeric_ok (values_of_fields (fields m))
  /\ required_ok E (values_of_fields (fields m))
  /\ validate_mapping_type (values_of_fields (fields m))
     = values_of_fields (fields m)
  /\ validate_symbol E (dict E (fields m)) = inr (dict E (fields m))
  /\ validate_output_symbol_variant (values_of_fields (fields m))
     = inr (values_of_fields (fields m))
  /\ validate_output_integrity E (values_of_fields (fields m))
     = inr (values_of_fields (fields m))
  /\ output_matches_input E (values_of_fields (fields m))
     = inr (values_of_fields (fields m)).
Proof.
  intros Hok H.
  destruct (construct_Mapping_inr E W X _ _ H)
    as (kwargs' & values & Hpre & Hf & Hv1 & Hv2 & Hv3 & Hfields & Hm).
  pose proof (values_of_fields_of_values _ _ Hfields) as Hv.
  rewrite Hv.
  destruct (validate_fields_Mapping_ok E _ _ Hf) as (Hreq & Htu & Hos).
  split; [exact Hm|].
  split.
  { apply numeric_ok_validate_mapping_type.
    pose proof (numeric_ok_validate_fields E MappingCls kwargs') as Hn.
    now rewrite Hf in Hn. }
  split; [now apply required_ok_validate_mapping_type|].
  split; [apply validate_mapping_type_idempotent|].
  split; [|auto].
  apply (validate_symbol_again E kwargs kwargs' _ Hok Hpre).
  - change (kw_output_symbol (dict E (fields m)))
      with (v_output_symbol (values_of_fields (fields m))).
    rewrite Hv, validate_mapping_type_set. cbn [v_output_symbol
      set_v_mapping_type]. exact Hos.
  - change (kw_target_uinput (dict E (fields m)))
      with (v_target_uinput (values_of_fields (fields m))).
    rewrite Hv, validate_mapping_type_set. cbn [v_target_uinput
      set_v_mapping_type]. rewrite Htu.
    rewrite (validate_symbol_inr E _ _ Hpre). reflexivity.
Qed.

(** A validated mapping is rebuilt from its own dictionary. *)
Lemma construct_Mapping_dict (E : Env) (W X : Type)
  (kwargs : Kwargs (Raw E)) (m : Object W X) :
  collaborators_ok E ->
  construct E W X MappingCls kwargs = inr m ->
  construct E W X MappingCls (dict E (fields m)) = inr m.
Proof.
  intros Hok H.
  destruct (construct_Mapping_fields E W X _ _ Hok H)
    as (Hm & Hnum & Hreq & Hstable & Hpre & Hv1 & Hv2 & Hv3).
  unfold construct. rewrite (validate_model_Mapping E _ _ Hpre).
  cbv zeta.
  rewrite (validate_fields_dict E MappingCls (fields m) (proj1 Hok) Hnum
             (fun _ => Hreq)).
  cbn [fst snd]. rewrite Hstable, Hv1, Hv2, Hv3. cbn [field_errors app].
  rewrite fields_of_values_of_fields. now rewrite <- Hm.
Qed.

(** With a parser whose verdict depends on the macro alone (the
    assumptions [collaborators_ok]), a validated mapping survives the round
    trip: its broadcast snapshot exists and has its field values; a
    [UIMapping] built from the fields of the snapshot exists and has no
    validation error; and the [Mapping] built from the fields of that
    [UIMapping] is the original one. *)
Lemma round_trip_with_fixed_parser (E : Env) (W X : Type)
  (kwargs : Kwargs (Raw E)) (m : Object W X) :
  collaborators_ok E ->
  construct E W X MappingCls kwargs = inr m ->
  exists snapshot ui,
    get_bus_message E W X m = inr snapshot
    /\ fields snapshot = fields m
    /\ construct E W X UIMappingCls (dict E (fields snapshot)) = inr ui
    /\ get_error E W X ui = None
    /\ construct E W X MappingCls (dict E (fields ui)) = inr m
    /\ fields ui = fields m.
Proof.
  intros Hok H.
  destruct (construct_Mapping_fields E W X _ _ Hok H)
    as (Hm & Hnum & Hreq & Hstable & _).
  pose proof (construct_Mapping_dict E W X _ _ Hok H) as Hagain.
  exists {| cls := MappingDataCls; fields := fields m;
            combination_changed := None |},
         {| cls := UIMappingCls; fields := fields m;
            combination_changed := None |}.
  unfold get_bus_message, get_error. cbn [fields].
  rewrite !construct_dict_permissive by (auto; try discriminate; apply Hok).
  rewrite Hagain. repeat split.
Qed.

Lemma sample_env_collaborators_ok : collaborators_ok sample_env.
Proof.
  unfold collaborators_ok. cbn.
  repeat split; try reflexivity. discriminate.
Qed.

Lemma round_trip_with_fixed_parser_sample :
  exists snapshot ui,
    get_bus_message sample_env unit string
      {| cls := MappingCls; fields := sample_fields;
         combination_changed := None |} = inr snapshot
    /\ fields snapshot = sample_fields
    /\ construct sample_env unit string UIMappingCls
         (dict sample_env (fields snapshot)) = inr ui
    /\ get_error sample_env unit string ui = None
    /\ construct sample_env unit string MappingCls
         (dict sample_env (fields ui))
       = inr {| cls := MappingCls; fields := sample_fields;
                combination_changed := None |}
    /\ fields ui = sample_fields.
Proof.
  apply (round_trip_with_fixed_parser sample_env unit string
           (sample_kwargs (Some [key_config 30]) (Some "keyboard")
              (Some " a ") None None)
           {| cls := MappingCls; fields := sample_fields;
              combination_changed := None |}).
  - exact sample_env_collaborators_ok.
  - reflexivity.
Qed.

(** *** The round trip when the parser reads the candidate *)

Lemma collaborators_ok_basic (E : Env) :
  collaborators_ok E -> collaborators_basic E.
Proof. intros (H1 & _ & H2 & H3 & H4). repeat split; assumption. Qed.

(** Without a macro in place of the symbol the parser is not asked. *)
Lemma macro_verdict_no_macro (E : Env) (values : Kwargs (Raw E)) :
  (forall symbol, kw_output_symbol values = Some symbol ->
     is_this_a_macro E symbol = false) ->
  macro_verdict E values = None.
Proof.
  intros H. unfold macro_verdict.
  destruct (kw_output_symbol values) as [symbol|]; [|reflexivity].
  rewrite (H symbol eq_refl). now destruct (symbol =? DISABLE_NAME E)%string.
Qed.

(** The parser has accepted the candidate that [validate_symbol] lets
    pass. *)
Lemma macro_verdict_passed (E : Env) (kwargs kwargs' : Kwargs (Raw E)) :
  validate_symbol E kwargs = inr kwargs' ->
  macro_verdict E kwargs' = None.
Proof.
  intros Hpre. unfold validate_symbol in Hpre. unfold macro_verdict.
  destruct (kw_output_symbol kwargs) as [s|] eqn:Hs.
  2:{ injection Hpre as <-. now rewrite Hs. }
  destruct (s =? "")%string.
  { injection Hpre as <-. reflexivity. }
  cbv zeta in Hpre.
  destruct (strip s =? DISABLE_NAME E)%string eqn:Hd.
  { injection Hpre as <-. cbn [kw_output_symbol set_kw_output_symbol].
    now rewrite Hd. }
  destruct (is_this_a_macro E (strip s)) eqn:Hmacro.
  - destruct (Parser_parse E (strip s) _) eqn:Hparse; [discriminate|].
    injection Hpre as <-. cbn [kw_output_symbol set_kw_output_symbol].
    now rewrite Hd, Hmacro.
  - assert (Hsym : kw_output_symbol kwargs' = Some (strip s)).
    { repeat match type of Hpre with
             | context [match ?x with _ => _ end] => destruct x
             end; try discriminate; injection Hpre as <-; reflexivity. }
    now rewrite Hsym, Hd, Hmacro.
Qed.



(** When the parser says to all the fields of the mapping what it said to
    the keyword arguments of the caller, it accepts the macro again. *)
Lemma macro_verdict_same_candidate (E : Env) (W X : Type)
  (kwargs kwargs' : Kwargs (Raw E)) (m : Object W X) :
  validate_symbol E kwargs = inr kwargs' ->
  construct E W X MappingCls kwargs = inr m ->
  (forall symbol,
     Parser_parse E symbol (dict E (fields m))
     = Parser_parse E symbol kwargs') ->
  macro_verdict E (dict E (fields m)) = None.
Proof.
  intros Hpre H Hsame.
  destruct (construct_Mapping_inr E W X _ _ H)
    as (k & values & Hpre' & Hf & _ & _ & _ & Hfields & _).
  rewrite Hpre in Hpre'. injection Hpre' as <-.
  pose proof (values_of_fields_of_values _ _ Hfields) as Hv.
  destruct (validate_fields_Mapping_ok E _ _ Hf) as (_ & _ & Hos).
  assert (Hsym : kw_output_symbol (dict E (fields m))
                 = kw_output_symbol kwargs').
  { change (kw_output_symbol (dict E (fields m)))
      with (v_output_symbol (values_of_fields (fields m))).
    rewrite Hv, validate_mapping_type_set. cbn [v_output_symbol
      set_v_mapping_type]. exact Hos. }
  pose proof (macro_verdict_passed E _ _ Hpre) as Hpassed.
  unfold macro_verdict in *. rewrite Hsym.
  destruct (kw_output_symbol kwargs') as [symbol|]; [|reflexivity].
  now rewrite Hsame.
Qed.




(** ** Every failure carries an error

    [construct] and [validate_assignment] fall back on raising when the
    dictionary of values lacks an entry.  That never happens without an
    error: the [ValidationError] they raise is never empty. *)

Lemma validate_fields_complete (E : Env) (c : Class) (kwargs : Kwargs (Raw E))
  (values : Values) :
  validate_fields E c kwargs = (values, []) ->
  exists f, fields_of_values values = Some f.
Proof.
  unfold validate_fields. intros [= <- Herr].
  repeat (apply app_eq_nil in Herr; destruct Herr as [? Herr]).
  repeat match goal with
         | H : field_errors ?r = [] |- _ =>
             destruct r eqn:?; [discriminate H|]; clear H
         end.
  cbn. eexists. reflexivity.
Qed.

Lemma fields_of_values_set_mapping_type (v : Values) (f : Fields)
  (t : option MappingType) :
  fields_of_values v = Some f ->
  exists f', fields_of_values (set_v_mapping_type v t) = Some f'.
Proof.
  destruct v as [ic tu os ot oc nm mt rck ms dz g ex rr cut rt frt].
  unfold fields_of_values. cbn.
  destruct ic, rck, ms, dz, g, ex, rr, cut, rt, frt; try discriminate.
  intros _. eexists. reflexivity.
Qed.

Lemma fields_of_values_validate_mapping_type (v : Values) (f : Fields) :
  fields_of_values v = Some f ->
  exists f', fields_of_values (validate_mapping_type v) = Some f'.
Proof.
  rewrite validate_mapping_type_set.
  apply fields_of_values_set_mapping_type.
Qed.

Lemma validate_model_complete (E : Env) (c : Class) (kwargs : Kwargs (Raw E))
  (values : Values) :
  validate_model E c kwargs = (values, []) ->
  exists f, fields_of_values values = Some f.
Proof.
  destruct c.
  - unfold validate_model. cbn [pre_root_validators run_pre_root_validators].
    destruct (validate_fields E UIMappingCls kwargs) as [v errs] eqn:Hf.
    rewrite run_post_root_validators_other by discriminate.
    intros [= <- ->].
    destruct (validate_fields_complete E _ _ _ Hf) as [f Hv].
    now apply (fields_of_values_validate_mapping_type v f).
  - destruct (validate_symbol E kwargs) as [exc | kwargs'] eqn:Hpre.
    + now rewrite (validate_model_Mapping_pre_fails E _ _ Hpre).
    + rewrite (validate_model_Mapping E _ _ Hpre). cbv zeta.
      destruct (validate_fields E MappingCls kwargs') as [v errs] eqn:Hf.
      cbn [fst snd]. intros [= <- Herr].
      apply app_eq_nil in Herr. destruct Herr as [-> _].
      destruct (validate_fields_complete E _ _ _ Hf) as [f Hv].
      now apply (fields_of_values_validate_mapping_type v f).
  - unfold validate_model. cbn [pre_root_validators run_pre_root_validators].
    destruct (validate_fields E MappingDataCls kwargs) as [v errs] eqn:Hf.
    rewrite run_post_root_validators_other by discriminate.
    intros [= <- ->].
    destruct (validate_fields_complete E _ _ _ Hf) as [f Hv].
    now apply (fields_of_values_validate_mapping_type v f).
Qed.

(** A construction that fails raises a [ValidationError] with at least one
    error. *)
Lemma construct_inl (E : Env) (W X : Type) (c : Class)
  (kwargs : Kwargs (Raw E)) (exc : Exception X) :
  construct E W X c kwargs = inl exc ->
  exists e errors, exc = ValidationError (e :: errors).
Proof.
  unfold construct.
  destruct (validate_model E c kwargs) as [values errors] eqn:Hm.
  destruct errors as [|e errors].
  - destruct (validate_model_complete E _ _ _ Hm) as [f ->]. discriminate.
  - intros [= <-]. now exists e, errors.
Qed.

Lemma run_post_root_validators_complete (E : Env) (c : Class) (v : Values)
  (errors : list ErrorItem) (f : Fields) :
  fields_of_values v = Some f ->
  exists f',
    fields_of_values
      (fst (run_post_root_validators (post_root_validators E c) v errors))
    = Some f'.
Proof.
  intros Hv. destruct c.
  - rewrite run_post_root_validators_other by discriminate.
    now apply (fields_of_values_validate_mapping_type v f).
  - rewrite run_post_root_validators_Mapping.
    now apply (fields_of_values_validate_mapping_type v f).
  - rewrite run_post_root_validators_other by discriminate.
    now apply (fields_of_values_validate_mapping_type v f).
Qed.

Lemma fields_of_values_store (f : Fields) (symbol : option string)
  (x : Validated) :
  exists f',
    fields_of_values (store (values_of_fields f) symbol x) = Some f'.
Proof. destruct x; cbn; eexists; reflexivity. Qed.

(** An assignment that fails under validation raises a [ValidationError]
    with at least one error, or, for what is no field, complains about the
    name. *)
Lemma validate_assignment_inl (E : Env) (W X : Type) (self : Object W X)
  (a : Assignment E W X) (exc : Exception X) :
  validate_assignment E W X self a = inl exc ->
  (exists e errors, exc = ValidationError (e :: errors))
  \/ (validate_assigned E W X (cls self) a = None
      /\ exc = NoFieldError (key a)).
Proof.
  unfold validate_assignment. cbv zeta.
  destruct (run_pre_root_validators _ _ _) as [e | nv].
  { intros [= <-]. left. now exists e, []. }
  destruct (validate_assigned E W X (cls self) a) as [[e | x]|].
  - intros [= <-]. left. now exists e, [].
  - destruct (fields_of_values_store (fields self) (kw_output_symbol nv) x)
      as [f0 Hstore].
    destruct (run_post_root_validators_complete E (cls self) _ [] _ Hstore)
      as [f' Hpost].
    destruct (run_post_root_validators _ _ _) as [nv' errors].
    cbn [fst] in Hpost. rewrite Hpost.
    destruct errors as [|e errors]; [discriminate|].
    intros [= <-]. left. now exists e, errors.
  - intros [= <-]. right. split; reflexivity.
Qed.

(** * Further properties *)

(** ** What a validated mapping satisfies *)

Lemma validate_fields_outputs (E : Env) (c : Class) (kwargs : Kwargs (Raw E)) :
  let values := fst (validate_fields E c kwargs) in
  v_output_symbol values = kw_output_symbol kwargs
  /\ v_output_type values = kw_output_type kwargs
  /\ v_output_code values = kw_output_code kwargs
  /\ v_name values = kw_name kwargs.
Proof. cbn. repeat split. Qed.

Lemma validate_mapping_type_outputs (values : Values) :
  v_output_symbol (validate_mapping_type values) = v_output_symbol values
  /\ v_output_type (validate_mapping_type values) = v_output_type values
  /\ v_output_code (validate_mapping_type values) = v_output_code values
  /\ v_name (validate_mapping_type values) = v_name values
  /\ v_target_uinput (validate_mapping_type values) = v_target_uinput values.
Proof. rewrite validate_mapping_type_set. cbn. repeat split. Qed.

(** The checks a successful construction of a [Mapping] has passed, read on
    the fields of the instance. *)
Lemma construct_Mapping_checks (E : Env) (W X : Type)
  (kwargs : Kwargs (Raw E)) (m : Object W X) :
  construct E W X MappingCls kwargs = inr m ->
  cls m = MappingCls
  /\ combination_changed m = None
  /\ numeric_ok (values_of_fields (fields m))
  /\ required_ok E (values_of_fields (fields m))
  /\ validate_mapping_type (values_of_fields (fields m))
     = values_of_fields (fields m)
  /\ validate_output_symbol_variant (values_of_fields (fields m))
     = inr (values_of_fields (fields m))
  /\ validate_output_integrity E (values_of_fields (fields m))
     = inr (values_of_fields (fields m))
  /\ output_matches_input E (values_of_fields (fields m))
     = inr (values_of_fields (fields m))
  /\ exists kwargs',
       validate_symbol E kwargs = inr kwargs'
       /\ output_symbol (fields m) = kw_output_symbol kwargs'
       /\ target_uinput (fields m) = kw_target_uinput kwargs
       /\ output_type (fields m) = kw_output_type kwargs
       /\ output_code (fields m) = kw_output_code kwargs.
Proof.
  intros H.
  destruct (construct_Mapping_inr E W X _ _ H)
    as (kwargs' & values & Hpre & Hf & Hv1 & Hv2 & Hv3 & Hfields & Hm).
  pose proof (values_of_fields_of_values _ _ Hfields) as Hv.
  destruct (validate_fields_Mapping_ok E _ _ Hf) as (Hreq & Htu & Hos).
  destruct (validate_fields_outputs E MappingCls kwargs')
    as (_ & Hot & Hoc & _).
  rewrite Hf in Hot, Hoc. cbn [fst] in Hot, Hoc.
  destruct (validate_mapping_type_outputs values)
    as (Hs' & Ht' & Hc' & _ & Htu').
  pose proof (validate_symbol_inr E _ _ Hpre) as Hk.
  rewrite Hv.
  split; [now rewrite Hm|]. split; [now rewrite Hm|].
  split.
  { apply numeric_ok_validate_mapping_type.
    pose proof (numeric_ok_validate_fields E MappingCls kwargs') as Hn.
    now rewrite Hf in Hn. }
  split; [now apply required_ok_validate_mapping_type|].
  split; [apply validate_mapping_type_idempotent|].
  do 3 (split; [assumption|]).
  assert (Hk1 : kw_target_uinput kwargs' = kw_target_uinput kwargs)
    by (rewrite Hk; reflexivity).
  assert (Hk2 : kw_output_type kwargs' = kw_output_type kwargs)
    by (rewrite Hk; reflexivity).
  assert (Hk3 : kw_output_code kwargs' = kw_output_code kwargs)
    by (rewrite Hk; reflexivity).
  exists kwargs'. split; [exact Hpre|].
  change (output_symbol (fields m))
    with (v_output_symbol (values_of_fields (fields m))).
  change (target_uinput (fields m))
    with (v_target_uinput (values_of_fields (fields m))).
  change (output_type (fields m))
    with (v_output_type (values_of_fields (fields m))).
  change (output_code (fields m))
    with (v_output_code (values_of_fields (fields m))).
  rewrite Hv, Hs', Ht', Hc', Htu', Hos, Htu, Hot, Hoc, Hk1, Hk2, Hk3.
  repeat split.
Qed.

(** Under [collaborators_ok], the symbol that [validate_symbol] lets pass
    is never the empty string. *)
Lemma validate_symbol_not_empty (E : Env) (kwargs kwargs' : Kwargs (Raw E)) :
  collaborators_ok E ->
  validate_symbol E kwargs = inr kwargs' ->
  kw_output_symbol kwargs' <> Some "".
Proof.
  intros (_ & _ & Hdisable & Hmacro & Hlayout) Hpre.
  rewrite (validate_symbol_normalizes E _ _ Hpre).
  unfold validate_symbol in Hpre.
  destruct (kw_output_symbol kwargs) as [s|]; [|discriminate].
  destruct (s =? "")%string; [discriminate|].
  intros [= Hz]. cbv zeta in Hpre. rewrite Hz in Hpre.
  assert (Hd : ("" =? DISABLE_NAME E)%string = false)
    by (apply String.eqb_neq; congruence).
  rewrite Hd, Hmacro, Hlayout in Hpre. discriminate.
Qed.

Lemma trigger_point_in_range_inr_all (c c' : InputCombination)
  (input_config : InputConfig) :
  trigger_point_in_range c = inr c' ->
  In input_config c ->
  trigger_point_out_of_range input_config = false.
Proof.
  unfold trigger_point_in_range. rewrite trigger_point_loop_find.
  destruct (find trigger_point_out_of_range c) eqn:Hfind; [discriminate|].
  intros _ Hin. exact (find_none _ _ Hfind _ Hin).
Qed.

Lemma validated_mapping_type (E : Env) (f : Fields) :
  output_symbol f <> Some "" ->
  validate_mapping_type (values_of_fields f) = values_of_fields f ->
  validate_output_symbol_variant (values_of_fields f)
  = inr (values_of_fields f) ->
  validate_output_integrity E (values_of_fields f)
  = inr (values_of_fields f) ->
  mapping_type f
  = Some (if is_some (output_symbol f)
             || opt_Z_eqb (output_type f) (Some EV_KEY)
          then KEY_MACRO else ANALOG).
Proof.
  destruct f as [ic tu os ot oc nm mt rck ms dz g ex rr cut rt frt].
  unfold validate_output_symbol_variant, validate_output_integrity,
    validate_mapping_type, values_of_fields.
  cbn [v_output_symbol v_output_type v_output_code output_symbol output_type
         mapping_type].
  intros Hne Hstable Hvar Hint.
  apply (f_equal v_mapping_type) in Hstable.
  destruct os as [s|].
  - assert (Hs : truthy_str (Some s) = true).
    { cbn. apply negb_true_iff, String.eqb_neq. congruence. }
    rewrite Hs in Hstable. cbn [is_some orb negb andb] in *.
    rewrite !andb_false_r in Hstable.
    destruct ot as [t|], oc as [c|]; cbn in Hstable, Hint |- *.
    all: try (destruct (is_this_a_macro E s); [discriminate|]).
    all: cbn in Hint.
    all: try (destruct (t =? EV_KEY) eqn:Ht; cbn in *).
    all: try rewrite orb_true_r in Hint.
    all: try discriminate.
    all: try (symmetry; exact Hstable).
  - destruct ot as [t|], oc as [c|]; cbn in Hvar; try discriminate.
    cbn in Hstable |- *.
    destruct (t =? EV_KEY) eqn:Ht; cbn in *; symmetry; exact Hstable.
Qed.

Lemma validated_integrity (E : Env) (f : Fields) (s : string) :
  output_symbol f = Some s ->
  output_type f <> None \/ output_code f <> None ->
  validate_output_integrity E (values_of_fields f)
  = inr (values_of_fields f) ->
  is_this_a_macro E s = false
  /\ output_type f = Some EV_KEY
  /\ (output_code f = None \/ output_code f = keyboard_layout_get E s).
Proof.
  destruct f as [ic tu os ot oc nm mt rck ms dz g ex rr cut rt frt].
  unfold validate_output_integrity, values_of_fields.
  cbn [v_output_symbol v_output_type v_output_code output_symbol output_type
         output_code].
  intros -> Hset Hint.
  assert (Hnone : is_none ot && is_none oc = false).
  { destruct ot, oc; try reflexivity. destruct Hset; congruence. }
  assert (Hsome : is_some ot || is_some oc = true).
  { destruct ot, oc; try reflexivity. destruct Hset; congruence. }
  rewrite Hnone, Hsome, andb_true_r in Hint.
  destruct (is_this_a_macro E s); [discriminate|].
  destruct (_ || _) eqn:Hm in Hint; [discriminate|].
  apply orb_false_iff in Hm. destruct Hm as [Hcode Htype].
  apply negb_false_iff, opt_Z_eqb_eq in Htype.
  split; [reflexivity|]. split; [exact Htype|].
  destruct oc as [c|]; [right|now left].
  cbn [is_some andb] in Hcode.
  now apply negb_false_iff, opt_Z_eqb_eq in Hcode.
Qed.

Lemma validated_matches (E : Env) (f : Fields) :
  mapping_type f <> None ->
  output_matches_input E (values_of_fields f) = inr (values_of_fields f) ->
  match find_analog_input_config E (input_combination f) with
  | None => mapping_type f = Some KEY_MACRO /\ output_key_set f = true
  | Some _ =>
      is_axis_mapping f = true \/ output_symbol f = Some (DISABLE_NAME E)
  end.
Proof.
  destruct f as [ic tu os ot oc nm mt rck ms dz g ex rr cut rt frt].
  unfold output_matches_input, values_of_fields, output_key_set,
    is_axis_mapping.
  cbn [v_input_combination v_output_symbol v_output_type v_output_code
         v_mapping_type input_combination output_symbol output_type
         output_code mapping_type].
  intros Hmt.
  destruct mt as [t|]; [clear Hmt|congruence].
  destruct (find_analog_input_config E ic) as [config|]; cbn [is_some negb andb].
  - destruct (opt_Z_eqb ot (Some EV_ABS) || opt_Z_eqb ot (Some EV_REL));
      [now left|].
    cbn [negb andb].
    destruct (opt_str_eqb os (Some (DISABLE_NAME E))) eqn:Hd;
      [|discriminate].
    intros _. right.
    destruct os as [s|]; [|discriminate]. cbn in Hd.
    apply String.eqb_eq in Hd. now subst.
  - destruct t; cbn [MappingType_eqb negb]; [|discriminate].
    destruct (truthy_str os || _); [|discriminate]. auto.
Qed.

(** X1.  A validated mapping passes its own validation again:
    [Mapping.is_valid], which is overridden to return [True] without
    looking, agrees with what [UIMapping.is_valid] would compute. *)
Theorem X1_validated_mapping_is_valid (E : Env) (W X : Type)
  (kwargs : Kwargs (Raw E)) (m : Object W X) :
  collaborators_ok E ->
  construct E W X MappingCls kwargs = inr m ->
  get_error E W X m = None
  /\ is_valid E W X m = is_none (get_error E W X m).
Proof.
  intros Hok H.
  pose proof (construct_Mapping_dict E W X _ _ Hok H) as Hagain.
  destruct (construct_Mapping_checks E W X _ _ H) as (Hcls & _).
  unfold is_valid, get_error. rewrite Hagain, Hcls.
  split; reflexivity.
Qed.

Lemma X1_validated_mapping_is_valid_witness :
  get_error sample_env (list InputCombination) string sample_validated = None
  /\ is_valid sample_env (list InputCombination) string sample_validated
     = is_none (get_error sample_env (list InputCombination) string
                  sample_validated).
Proof.
  apply (X1_validated_mapping_is_valid sample_env (list InputCombination)
           string
           (sample_kwargs (Some [key_config 30]) (Some "keyboard")
              (Some " a ") None None)
           sample_validated).
  - unfold collaborators_ok. cbn.
    repeat split; try reflexivity. discriminate.
  - reflexivity.
Defined.

(** X2.  The symbol of a validated mapping is the symbol it was given,
    stripped; an empty symbol is stored as [None]. *)
Theorem X2_symbol_is_stored_stripped (E : Env) (W X : Type)
  (kwargs : Kwargs (Raw E)) (m : Object W X) :
  construct E W X MappingCls kwargs = inr m ->
  output_symbol (fields m)
  = match kw_output_symbol kwargs with
    | None => None
    | Some symbol => if (symbol =? "")%string then None
                     else Some (strip symbol)
    end.
Proof.
  intros H.
  destruct (construct_Mapping_checks E W X _ _ H)
    as (_ & _ & _ & _ & _ & _ & _ & _ & kwargs' & Hpre & Hs & _).
  rewrite Hs. now apply validate_symbol_normalizes.
Qed.

Lemma X2_symbol_is_stored_stripped_witness :
  output_symbol (fields sample_validated) = Some (strip " a ").
Proof.
  apply (X2_symbol_is_stored_stripped sample_env (list InputCombination)
           string
           (sample_kwargs (Some [key_config 30]) (Some "keyboard")
              (Some " a ") None None)
           sample_validated).
  reflexivity.
Defined.

(** X3.  In a validated mapping that has a symbol next to an explicit
    output type or code, the symbol is no macro, the type is the key class,
    and the code, if set, is the code of the symbol in the keyboard
    layout. *)
Theorem X3_symbol_agrees_with_type_and_code (E : Env) (W X : Type)
  (kwargs : Kwargs (Raw E)) (m : Object W X) (symbol : string) :
  construct E W X MappingCls kwargs = inr m ->
  output_symbol (fields m) = Some symbol ->
  output_type (fields m) <> None \/ output_code (fields m) <> None ->
  is_this_a_macro E symbol = false
  /\ output_type (fields m) = Some EV_KEY
  /\ (output_code (fields m) = None
      \/ output_code (fields m) = keyboard_layout_get E symbol).
Proof.
  intros H Hs Hset.
  destruct (construct_Mapping_checks E W X _ _ H)
    as (_ & _ & _ & _ & _ & _ & Hint & _).
  now apply validated_integrity.
Qed.

(** X4.  The input combination of a validated mapping has at most one
    analog-defining constituent, and every threshold on an absolute axis has
    a magnitude below 100. *)
Theorem X4_combination_of_validated_mapping (E : Env) (W X : Type)
  (kwargs : Kwargs (Raw E)) (m : Object W X) :
  construct E W X MappingCls kwargs = inr m ->
  (length (filter (defines_analog_input E) (input_combination (fields m)))
   <= 1)%nat
  /\ forall input_config t,
       In input_config (input_combination (fields m)) ->
       config_type input_config = EV_ABS ->
       analog_threshold input_config = Some t ->
       Z.abs t < 100.
Proof.
  intros H.
  destruct (construct_Mapping_checks E W X _ _ H)
    as (_ & _ & _ & [(c & [= <-] & Hone & Htrigger) _] & _).
  split.
  - unfold only_one_analog_input in Hone.
    destruct (1 <? _) eqn:Hlt in Hone; [discriminate|].
    apply Z.ltb_ge in Hlt. lia.
  - intros input_config t Hin Htype Ht.
    pose proof (trigger_point_in_range_inr_all _ _ _ Htrigger Hin) as Hr.
    destruct (Z_lt_ge_dec (Z.abs t) 100) as [Hlt | Hge]; [exact Hlt|].
    rewrite (trigger_point_out_of_range_intro _ t Htype Ht) in Hr by lia.
    discriminate.
Qed.

(** X5.  A validated mapping has one of the known output devices as its
    target and has an output: a symbol, or both an output type and an
    output code. *)
Theorem X5_target_and_output_present (E : Env) (W X : Type)
  (kwargs : Kwargs (Raw E)) (m : Object W X) :
  construct E W X MappingCls kwargs = inr m ->
  (exists target,
     target_uinput (fields m) = Some target /\ is_KnownUinput target = true)
  /\ (output_symbol (fields m) <> None
      \/ (output_type (fields m) <> None /\ output_code (fields m) <> None)).
Proof.
  intros H.
  destruct (construct_Mapping_checks E W X _ _ H)
    as (_ & _ & _ & [_ Htarget] & _ & Hvar & _).
  split; [exact Htarget|].
  unfold validate_output_symbol_variant in Hvar. cbn in Hvar.
  destruct (output_symbol (fields m)); [left; discriminate|].
  destruct (output_type (fields m)), (output_code (fields m));
    try discriminate.
  right. split; discriminate.
Qed.

Lemma X3_symbol_agrees_with_type_and_code_witness :
  is_this_a_macro sample_env "b" = false
  /\ output_type (fields sample_key_mapping) = Some EV_KEY
  /\ (output_code (fields sample_key_mapping) = None
      \/ output_code (fields sample_key_mapping)
         = keyboard_layout_get sample_env "b").
Proof.
  apply (X3_symbol_agrees_with_type_and_code sample_env
           (list InputCombination) string
           (sample_kwargs (Some [key_config 3]) (Some "keyboard") (Some "b")
              (Some EV_KEY) (Some 48))
           sample_key_mapping "b");
    [reflexivity | reflexivity | left; discriminate].
Defined.

Lemma X4_combination_of_validated_mapping_witness :
  (length (filter (defines_analog_input sample_env)
             (input_combination (fields sample_axis_mapping))) <= 1)%nat
  /\ forall input_config t,
       In input_config (input_combination (fields sample_axis_mapping)) ->
       config_type input_config = EV_ABS ->
       analog_threshold input_config = Some t ->
       Z.abs t < 100.
Proof.
  apply (X4_combination_of_validated_mapping sample_env
           (list InputCombination) string
           (sample_kwargs (Some [abs_config 0 None]) (Some "gamepad") None
              (Some EV_ABS) (Some 1))
           sample_axis_mapping).
  reflexivity.
Defined.

Lemma X5_target_and_output_present_witness :
  (exists target,
     target_uinput (fields sample_axis_mapping) = Some target
     /\ is_KnownUinput target = true)
  /\ (output_symbol (fields sample_axis_mapping) <> None
      \/ (output_type (fields sample_axis_mapping) <> None
          /\ output_code (fields sample_axis_mapping) <> None)).
Proof.
  apply (X5_target_and_output_present sample_env (list InputCombination)
           string
           (sample_kwargs (Some [abs_config 0 None]) (Some "gamepad") None
              (Some EV_ABS) (Some 1))
           sample_axis_mapping).
  reflexivity.
Defined.

(** X6.  The mapping type of a validated mapping is a function of its
    output: [key_macro] when it has a symbol or the key class as its output
    type, [analog] otherwise.  The [mapping_type] passed to the constructor
    does not matter. *)
Theorem X6_mapping_type_of_validated_mapping (E : Env) (W X : Type)
  (kwargs : Kwargs (Raw E)) (m : Object W X) :
  collaborators_ok E ->
  construct E W X MappingCls kwargs = inr m ->
  mapping_type (fields m)
  = Some (if is_some (output_symbol (fields m))
             || opt_Z_eqb (output_type (fields m)) (Some EV_KEY)
          then KEY_MACRO else ANALOG).
Proof.
  intros Hok H.
  destruct (construct_Mapping_checks E W X _ _ H)
    as (_ & _ & _ & _ & Hstable & Hvar & Hint & _ & kwargs' & Hpre & Hs & _).
  apply (validated_mapping_type E); try assumption.
  rewrite Hs. now apply (validate_symbol_not_empty E kwargs).
Qed.

Lemma X6_mapping_type_of_validated_mapping_witness :
  mapping_type (fields sample_axis_mapping)
  = Some (if is_some (output_symbol (fields sample_axis_mapping))
             || opt_Z_eqb (output_type (fields sample_axis_mapping))
                  (Some EV_KEY)
          then KEY_MACRO else ANALOG).
Proof.
  apply (X6_mapping_type_of_validated_mapping sample_env
           (list InputCombination) string
           {| kw_input_combination := Some (Some [abs_config 0 None]);
              kw_target_uinput := Some "gamepad";
              kw_output_symbol := None;
              kw_output_type := Some EV_ABS;
              kw_output_code := Some 1;
              kw_name := None;
              kw_mapping_type := Some "key_macro";
              kw_release_combination_keys := None;
              kw_macro_key_sleep_ms := None;
              kw_deadzone := None;
              kw_gain := None;
              kw_expo := None;
              kw_rel_rate := None;
              kw_rel_to_abs_input_cutoff := None;
              kw_release_timeout := None;
              kw_force_release_timeout := None |}
           sample_axis_mapping).
  - unfold collaborators_ok. cbn.
    repeat split; try reflexivity. discriminate.
  - reflexivity.
Defined.

(** X7.  In a validated mapping the output fits the input.  Without an
    analog input in the combination the mapping type is [key_macro] and a
    key output is set: a non-empty symbol, or the key class with a code
    other than 0.  With an analog input the output type is an axis class, or
    the symbol is the disable symbol. *)
Theorem X7_output_fits_input (E : Env) (W X : Type)
  (kwargs : Kwargs (Raw E)) (m : Object W X) :
  collaborators_ok E ->
  construct E W X MappingCls kwargs = inr m ->
  match find_analog_input_config E (input_combination (fields m)) with
  | None =>
      mapping_type (fields m) = Some KEY_MACRO
      /\ output_key_set (fields m) = true
  | Some _ =>
      is_axis_mapping (fields m) = true
      \/ output_symbol (fields m) = Some (DISABLE_NAME E)
  end.
Proof.
  intros Hok H.
  destruct (construct_Mapping_checks E W X _ _ H)
    as (_ & _ & _ & _ & Hstable & Hvar & Hint & Hmatch & kwargs' & Hpre
        & Hs & _).
  apply validated_matches; [|exact Hmatch].
  rewrite (validated_mapping_type E (fields m)); try assumption;
    [discriminate|].
  rewrite Hs. now apply (validate_symbol_not_empty E kwargs).
Qed.

Lemma X7_output_fits_input_witness :
  match find_analog_input_config sample_env
          (input_combination (fields sample_key_mapping)) with
  | None =>
      mapping_type (fields sample_key_mapping) = Some KEY_MACRO
      /\ output_key_set (fields sample_key_mapping) = true
  | Some _ =>
      is_axis_mapping (fields sample_key_mapping) = true
      \/ output_symbol (fields sample_key_mapping)
         = Some (DISABLE_NAME sample_env)
  end.
Proof.
  apply (X7_output_fits_input sample_env (list InputCombination) string
           (sample_kwargs (Some [key_config 3]) (Some "keyboard") (Some "b")
              (Some EV_KEY) (Some 48))
           sample_key_mapping).
  - unfold collaborators_ok. cbn.
    repeat split; try reflexivity. discriminate.
  - reflexivity.
Defined.

(** X8.  On a validated mapping [is_analog_output] and [is_axis_mapping]
    agree: the mapping type is [analog] exactly when the output type is one
    of the two axis classes. *)
Theorem X8_analog_output_is_axis_mapping (E : Env) (W X : Type)
  (kwargs : Kwargs (Raw E)) (m : Object W X) :
  collaborators_ok E ->
  construct E W X MappingCls kwargs = inr m ->
  is_analog_output (fields m) = is_axis_mapping (fields m).
Proof.
  intros Hok H.
  destruct (construct_Mapping_checks E W X _ _ H)
    as (_ & _ & _ & _ & Hstable & Hvar & Hint & Hmatch & kwargs' & Hpre
        & Hs & _).
  assert (Hne : output_symbol (fields m) <> Some "").
  { rewrite Hs. now apply (validate_symbol_not_empty E kwargs). }
  pose proof (validated_mapping_type E (fields m) Hne Hstable Hvar Hint)
    as Hmt.
  assert (Hsome : mapping_type (fields m) <> None) by (rewrite Hmt; discriminate).
  pose proof (validated_matches E (fields m) Hsome Hmatch) as Hfit.
  unfold is_analog_output. rewrite Hmt.
  destruct (output_symbol (fields m)) as [s|] eqn:Hsym.
  - cbn [is_some orb MappingType_eqb].
    destruct (is_axis_mapping (fields m)) eqn:Haxis; [|reflexivity].
    assert (Hset : output_type (fields m) <> None
                   \/ output_code (fields m) <> None).
    { left. unfold is_axis_mapping in Haxis.
      destruct (output_type (fields m)); [discriminate|discriminate Haxis]. }
    destruct (validated_integrity E (fields m) s Hsym Hset Hint)
      as (_ & Hkey & _).
    unfold is_axis_mapping in Haxis. rewrite Hkey in Haxis.
    discriminate Haxis.
  - cbn [is_some orb].
    destruct (opt_Z_eqb (output_type (fields m)) (Some EV_KEY)) eqn:Hkey.
    + apply opt_Z_eqb_eq in Hkey. unfold is_axis_mapping. now rewrite Hkey.
    + rewrite Hmt in Hfit. cbn [MappingType_eqb].
      destruct (find_analog_input_config E (input_combination (fields m))).
      * destruct Hfit as [Haxis | Hd]; [now rewrite Haxis | discriminate].
      * destruct Hfit as [Hk _]. cbn in Hk. discriminate.
Qed.

Lemma X8_analog_output_is_axis_mapping_witness :
  is_analog_output (fields sample_axis_mapping)
  = is_axis_mapping (fields sample_axis_mapping).
Proof.
  apply (X8_analog_output_is_axis_mapping sample_env
           (list InputCombination) string
           (sample_kwargs (Some [abs_config 0 None]) (Some "gamepad") None
              (Some EV_ABS) (Some 1))
           sample_axis_mapping).
  - unfold collaborators_ok. cbn.
    repeat split; try reflexivity. discriminate.
  - reflexivity.
Defined.

(** ** What every instance satisfies *)

Lemma numeric_ok_in_bounds (f : Fields) :
  numeric_ok (values_of_fields f) <-> in_bounds f.
Proof.
  unfold numeric_ok, in_bounds. cbn.
  split.
  - intros (Hms & Hdz & Hex & Hrr & Hcut & Hrt).
    specialize (Hms _ eq_refl). destruct (Hdz _ eq_refl) as [Hdz1 Hdz2].
    destruct (Hex _ eq_refl) as [Hex1 Hex2].
    specialize (Hrr _ eq_refl). specialize (Hcut _ eq_refl).
    specialize (Hrt _ eq_refl).
    apply Z.leb_le in Hms. apply Z.ltb_lt in Hrr, Hcut.
    apply Qle_bool_iff in Hdz1, Hdz2, Hex1, Hex2.
    repeat split; try assumption.
    apply Qnot_le_lt. intros Hle. apply Qle_bool_iff in Hle. congruence.
  - intros (Hms & [Hdz1 Hdz2] & [Hex1 Hex2] & Hrr & Hcut & Hrt).
    split; [intros ? [= <-]; now apply Z.leb_le|].
    split; [intros ? [= <-]; split; now apply Qle_bool_iff|].
    split; [intros ? [= <-]; split; now apply Qle_bool_iff|].
    split; [intros ? [= <-]; now apply Z.ltb_lt|].
    split; [intros ? [= <-]; now apply Z.ltb_lt|].
    intros ? [= <-].
    destruct (Qle_bool (release_timeout f) 0) eqn:Hle; [|reflexivity].
    apply Qle_bool_iff in Hle. exfalso. exact (Qlt_not_le _ _ Hrt Hle).
Qed.

Lemma stable_mapping_type (f : Fields) :
  validate_mapping_type (values_of_fields f) = values_of_fields f
  <-> mapping_type f
      = v_mapping_type (validate_mapping_type (values_of_fields f)).
Proof.
  split.
  - intros ->. reflexivity.
  - intros H. rewrite validate_mapping_type_set, <- H.
    destruct f; reflexivity.
Qed.

Lemma instance_ok_iff (f : Fields) :
  instance_ok f
  <-> numeric_ok (values_of_fields f)
      /\ validate_mapping_type (values_of_fields f) = values_of_fields f.
Proof.
  unfold instance_ok. now rewrite numeric_ok_in_bounds, stable_mapping_type.
Qed.

(** The values of a successful [validate_model] are the validated fields
    after [validate_mapping_type]. *)
Lemma validate_model_values (E : Env) (c : Class) (kwargs : Kwargs (Raw E))
  (values : Values) (errors : list ErrorItem) (f : Fields) :
  validate_model E c kwargs = (values, errors) ->
  fields_of_values values = Some f ->
  exists kwargs',
    values = validate_mapping_type (fst (validate_fields E c kwargs')).
Proof.
  destruct c.
  - unfold validate_model. cbn [pre_root_validators run_pre_root_validators].
    destruct (validate_fields E UIMappingCls kwargs) as [v errs] eqn:Hf.
    rewrite run_post_root_validators_other by discriminate.
    intros [= <- _] _. exists kwargs. now rewrite Hf.
  - destruct (validate_symbol E kwargs) as [exc | kwargs'] eqn:Hpre.
    + rewrite (validate_model_Mapping_pre_fails E _ _ Hpre).
      intros [= <- _]. discriminate.
    + rewrite (validate_model_Mapping E _ _ Hpre). cbv zeta.
      intros [= <- _] _. now exists kwargs'.
  - unfold validate_model. cbn [pre_root_validators run_pre_root_validators].
    destruct (validate_fields E MappingDataCls kwargs) as [v errs] eqn:Hf.
    rewrite run_post_root_validators_other by discriminate.
    intros [= <- _] _. exists kwargs. now rewrite Hf.
Qed.

Lemma construct_inr (E : Env) (W X : Type) (c : Class)
  (kwargs : Kwargs (Raw E)) (o : Object W X) :
  construct E W X c kwargs = inr o ->
  cls o = c /\ combination_changed o = None
  /\ exists kwargs',
       values_of_fields (fields o)
       = validate_mapping_type (fst (validate_fields E c kwargs')).
Proof.
  unfold construct.
  destruct (validate_model E c kwargs) as [values errors] eqn:Hm.
  destruct errors; [|discriminate].
  destruct (fields_of_values values) as [f|] eqn:Hf; [|discriminate].
  intros [= <-]. cbn [cls fields combination_changed].
  split; [reflexivity|]. split; [reflexivity|].
  destruct (validate_model_values E _ _ _ _ _ Hm Hf) as [kwargs' Hv].
  exists kwargs'. rewrite <- Hv. now apply values_of_fields_of_values.
Qed.

(** X9.  Every instance that a constructor of one of the three classes
    returns has its numeric fields within the bounds of their annotations,
    and a mapping type that [validate_mapping_type] would not change. *)
Theorem X9_constructed_instance_ok (E : Env) (W X : Type) (c : Class)
  (kwargs : Kwargs (Raw E)) (o : Object W X) :
  construct E W X c kwargs = inr o ->
  instance_ok (fields o).
Proof.
  intros H. destruct (construct_inr E W X _ _ _ H) as (_ & _ & kwargs' & Hv).
  apply instance_ok_iff. rewrite Hv. split.
  - apply numeric_ok_validate_mapping_type, numeric_ok_validate_fields.
  - apply validate_mapping_type_idempotent.
Qed.

Lemma X9_constructed_instance_ok_witness :
  instance_ok (fields sample_editable).
Proof.
  apply (X9_constructed_instance_ok sample_env (list InputCombination)
           string UIMappingCls
           (sample_kwargs (Some [key_config 30]) (Some "keyboard")
              (Some "a") None None)
           sample_editable).
  reflexivity.
Defined.

Lemma run_post_root_validators_fst (E : Env) (c : Class) (v : Values)
  (errors : list ErrorItem) :
  fst (run_post_root_validators (post_root_validators E c) v errors)
  = validate_mapping_type v.
Proof.
  destruct c.
  - now rewrite run_post_root_validators_other by discriminate.
  - now rewrite run_post_root_validators_Mapping.
  - now rewrite run_post_root_validators_other by discriminate.
Qed.

(** What a successful assignment under validation leaves in the
    instance. *)
Lemma validate_assignment_inr (E : Env) (W X : Type) (self self' : Object W X)
  (a : Assignment E W X) :
  validate_assignment E W X self a = inr self' ->
  exists nv x,
    run_pre_root_validators E (pre_root_validators E (cls self))
      (assign_kw E W X (dict E (fields self)) a) = inr nv
    /\ validate_assigned E W X (cls self) a = Some (inr x)
    /\ values_of_fields (fields self')
       = validate_mapping_type
           (store (values_of_fields (fields self)) (kw_output_symbol nv) x)
    /\ cls self' = cls self
    /\ combination_changed self' = combination_changed self.
Proof.
  unfold validate_assignment. cbv zeta.
  destruct (run_pre_root_validators _ _ _) as [exc | nv]; [discriminate|].
  destruct (validate_assigned E W X (cls self) a) as [[err | x]|];
    try discriminate.
  pose proof (run_post_root_validators_fst E (cls self)
                (store (values_of_fields (fields self))
                   (kw_output_symbol nv) x) []) as Hfst.
  destruct (run_post_root_validators _ _ _) as [nv' errors].
  cbn [fst] in Hfst. destruct errors; [|discriminate].
  destruct (fields_of_values nv') as [f|] eqn:Hf; [|discriminate].
  intros [= <-]. exists nv, x. unfold with_fields.
  cbn [cls fields combination_changed].
  rewrite (values_of_fields_of_values _ _ Hf), Hfst. repeat split.
Qed.

Lemma numeric_ok_store (E : Env) (W X : Type) (c : Class)
  (a : Assignment E W X) (x : Validated) (v : Values)
  (symbol : option string) :
  validate_assigned E W X c a = Some (inr x) ->
  numeric_ok v ->
  numeric_ok (store v symbol x).
Proof.
  intros Hx (Hms & Hdz & Hex & Hrr & Hcut & Hrt).
  pose proof (conj Hms (conj Hdz (conj Hex (conj Hrr (conj Hcut Hrt)))))
    as Hall.
  destruct a; cbn [validate_assigned] in Hx; unfold map_result in Hx;
    try discriminate;
    try (injection Hx as <-; exact Hall);
    match type of Hx with
    | context [match ?r with inl _ => _ | inr _ => _ end] =>
        destruct r eqn:Hr; try discriminate; injection Hx as <-
    end;
    try exact Hall.
  - refine (conj _ (conj Hdz (conj Hex (conj Hrr (conj Hcut Hrt))))).
    cbn. intros ? [= <-]. unfold validate_ge0 in Hr.
    destruct (0 <=? value) eqn:Hz; [now injection Hr as <-|discriminate].
  - refine (conj Hms (conj _ (conj Hex (conj Hrr (conj Hcut Hrt))))).
    cbn. intros ? [= <-]. unfold validate_between in Hr.
    destruct (Qle_bool 0 value) eqn:H1; cbn in Hr; [|discriminate].
    destruct (Qle_bool value 1) eqn:H2; cbn in Hr; [|discriminate].
    injection Hr as <-. auto.
  - refine (conj Hms (conj Hdz (conj _ (conj Hrr (conj Hcut Hrt))))).
    cbn. intros ? [= <-]. unfold validate_between in Hr.
    destruct (Qle_bool (-1) value) eqn:H1; cbn in Hr; [|discriminate].
    destruct (Qle_bool value 1) eqn:H2; cbn in Hr; [|discriminate].
    injection Hr as <-. auto.
  - refine (conj Hms (conj Hdz (conj Hex (conj _ (conj Hcut Hrt))))).
    cbn. intros ? [= <-]. unfold validate_positive in Hr.
    destruct (0 <? value) eqn:Hz; [now injection Hr as <-|discriminate].
  - refine (conj Hms (conj Hdz (conj Hex (conj Hrr (conj _ Hrt))))).
    cbn. intros ? [= <-]. unfold validate_positive in Hr.
    destruct (0 <? value) eqn:Hz; [now injection Hr as <-|discriminate].
  - refine (conj Hms (conj Hdz (conj Hex (conj Hrr (conj Hcut _))))).
    cbn. intros ? [= <-]. unfold validate_positive_float in Hr.
    destruct (Qle_bool value 0) eqn:Hz; [discriminate|now injection Hr as <-].
Qed.

Lemma BaseModel_setattr_instance_ok (E : Env) (W X : Type)
  (self self' : Object W X) (a : Assignment E W X) :
  instance_ok (fields self) ->
  BaseModel_setattr E W X self a = inr self' ->
  instance_ok (fields self').
Proof.
  intros Hok. unfold BaseModel_setattr.
  assert (Hva : validate_assignment E W X self a = inr self' ->
                instance_ok (fields self')).
  { intros H.
    destruct (validate_assignment_inr E W X _ _ _ H)
      as (nv & x & _ & Hx & Hv & _).
    apply instance_ok_iff. rewrite Hv. split.
    - apply numeric_ok_validate_mapping_type.
      apply (numeric_ok_store E W X _ _ _ _ _ Hx).
      now apply instance_ok_iff in Hok.
    - apply validate_mapping_type_idempotent. }
  destruct a; try discriminate;
    try (destruct (negb (allow_mutation (cls self))); [discriminate|];
         exact Hva).
  now intros [= <-].
Qed.

(** What [__setattr__] leaves as the instance: the instance as it was, or
    what pydantic's assignment made of it. *)
Lemma setattr_self_after (E : Env) (W X : Type) (self : Object W X)
  (a : Assignment E W X) (w : W) :
  self_after (setattr E W X self a w) = self
  \/ exists a',
       BaseModel_setattr E W X self a'
       = inr (self_after (setattr E W X self a w))
       /\ (a' = a \/ exists c, a' = SetInputCombination (raw_of E c)).
Proof.
  unfold setattr.
  assert (Hbase :
    self_after
      match BaseModel_setattr E W X self a with
      | inl exc =>
          {| raised := Some exc; self_after := self; world_after := w;
             callback_calls := [] |}
      | inr self' =>
          {| raised := None; self_after := self'; world_after := w;
             callback_calls := [] |}
      end = self
    \/ exists a',
         BaseModel_setattr E W X self a'
         = inr (self_after
                  match BaseModel_setattr E W X self a with
                  | inl exc =>
                      {| raised := Some exc; self_after := self;
                         world_after := w; callback_calls := [] |}
                  | inr self' =>
                      {| raised := None; self_after := self';
                         world_after := w; callback_calls := [] |}
                  end)
         /\ (a' = a \/ exists c, a' = SetInputCombination (raw_of E c))).
  { destruct (BaseModel_setattr E W X self a) as [exc | self'] eqn:Hset;
      cbn [self_after]; [now left|].
    right. exists a. auto. }
  destruct a; try exact Hbase.
  destruct (combination_changed self) as [callback|]; [|exact Hbase].
  destruct (InputCombination_validate E value) as [new_combi|];
    [|now left].
  cbv zeta.
  destruct (InputCombination_eqb _ _); [now left|].
  destruct (callback _ _ w) as [w' [e|]]; [now left|].
  destruct (BaseModel_setattr E W X self
              (SetInputCombination (raw_of E new_combi)))
    as [exc | self'] eqn:Hset; cbn [self_after]; [now left|].
  right. exists (SetInputCombination (raw_of E new_combi)).
  split; [exact Hset|]. right. now exists new_combi.
Qed.

(** X10.  Assignment keeps what every instance satisfies: after
    [__setattr__], whether it succeeds or raises, the numeric fields are
    within their bounds and the mapping type is one that
    [validate_mapping_type] would not change. *)
Theorem X10_setattr_keeps_instance_ok (E : Env) (W X : Type)
  (self : Object W X) (a : Assignment E W X) (w : W) :
  instance_ok (fields self) ->
  instance_ok (fields (self_after (setattr E W X self a w))).
Proof.
  intros Hok.
  destruct (setattr_self_after E W X self a w) as [-> | (a' & Hset & _)];
    [exact Hok|].
  exact (BaseModel_setattr_instance_ok E W X _ _ _ Hok Hset).
Qed.

Lemma X10_setattr_keeps_instance_ok_witness :
  instance_ok
    (fields
       (self_after
          (setattr sample_env (list InputCombination) string sample_mapping
             (SetDeadzone (E := sample_env) (1 # 2)%Q) []))).
Proof.
  apply (X10_setattr_keeps_instance_ok sample_env (list InputCombination)
           string sample_mapping (SetDeadzone (1 # 2)%Q) []).
  unfold instance_ok, in_bounds. cbn.
  repeat split; try lia; try (unfold Qle, Qlt; cbn; lia).
Defined.

(** ** Changing the input combination *)

Lemma validate_mapping_type_with_input_combination (f : Fields)
  (c : InputCombination) :
  validate_mapping_type (values_of_fields f) = values_of_fields f ->
  validate_mapping_type (values_of_fields (with_input_combination f c))
  = values_of_fields (with_input_combination f c).
Proof.
  intros H. apply stable_mapping_type. apply stable_mapping_type in H.
  destruct f as [ic tu os ot oc nm mt rck ms dz g ex rr cut rt frt].
  unfold validate_mapping_type, values_of_fields, with_input_combination
    in *.
  cbn [v_output_type v_output_code v_output_symbol output_type output_code
         output_symbol mapping_type] in *.
  destruct (negb (opt_Z_eqb ot (Some EV_KEY)) && is_some oc
            && negb (truthy_str os)),
    (is_none ot && is_none oc && truthy_str os),
    (opt_Z_eqb ot (Some EV_KEY)); exact H.
Qed.

(** pydantic's assignment of a combination to a [UIMapping]: the validated
    combination replaces the old one and nothing else changes. *)
Lemma BaseModel_setattr_combination (E : Env) (W X : Type)
  (self : Object W X) (value : Raw E) (c : InputCombination) :
  cls self = UIMappingCls ->
  InputCombination_validate E value = Some c ->
  instance_ok (fields self) ->
  BaseModel_setattr E W X self (SetInputCombination value)
  = inr (with_fields W X self (with_input_combination (fields self) c)).
Proof.
  intros Hcls Hvalid Hok. apply instance_ok_iff in Hok.
  destruct Hok as [_ Hstable].
  unfold BaseModel_setattr, validate_assignment. rewrite Hcls.
  cbn [allow_mutation negb pre_root_validators run_pre_root_validators
         validate_assigned].
  unfold validate_input_combination. rewrite Hvalid.
  cbn [map_result].
  rewrite run_post_root_validators_other by discriminate.
  change (store (values_of_fields (fields self))
            (kw_output_symbol
               (assign_kw E W X (dict E (fields self))
                  (SetInputCombination value)))
            (ValidInputCombination c))
    with (values_of_fields (with_input_combination (fields self) c)).
  rewrite (validate_mapping_type_with_input_combination _ c Hstable).
  now rewrite fields_of_values_of_fields.
Qed.

(** X11.  On a [UIMapping] with a callback registered, assigning a value
    that validates to another combination, which the callback accepts, calls
    the callback once with the new and the old combination and then stores
    the new combination; every other field keeps its value. *)
Theorem X11_accepted_combination_change (E : Env) (W X : Type)
  (self : Object W X) (callback : Callback W X) (value : Raw E)
  (new_combi : InputCombination) (w w' : W) :
  cls self = UIMappingCls ->
  instance_ok (fields self) ->
  combination_changed self = Some callback ->
  InputCombination_validate E value = Some new_combi ->
  InputCombination_validate E (raw_of E new_combi) = Some new_combi ->
  InputCombination_eqb new_combi (input_combination (fields self)) = false ->
  callback new_combi (input_combination (fields self)) w = (w', None) ->
  let out := setattr E W X self (SetInputCombination value) w in
  raised out = None
  /\ fields (self_after out)
     = with_input_combination (fields self) new_combi
  /\ combination_changed (self_after out) = Some callback
  /\ world_after out = w'
  /\ callback_calls out = [(new_combi, input_combination (fields self))].
Proof.
  intros Hcls Hok Hcb Hvalid Hagain Hneq Hcall. unfold setattr.
  rewrite Hcb, Hvalid. cbv zeta. rewrite Hneq, Hcall.
  rewrite (BaseModel_setattr_combination E W X self _ _ Hcls Hagain Hok).
  cbn. rewrite Hcb. repeat split.
Qed.

Lemma X11_accepted_combination_change_witness :
  let out :=
    setattr sample_env (list InputCombination) string sample_mapping
      (SetInputCombination (E := sample_env) (Some [key_config 31])) [] in
  raised out = None
  /\ fields (self_after out)
     = with_input_combination (fields sample_mapping) [key_config 31]
  /\ combination_changed (self_after out) = Some sample_callback
  /\ world_after out = [[key_config 31]]
  /\ callback_calls out = [([key_config 31], [key_config 30])].
Proof.
  apply (X11_accepted_combination_change sample_env
           (list InputCombination) string sample_mapping sample_callback
           (Some [key_config 31]) [key_config 31] [] [[key_config 31]]);
    try reflexivity.
  unfold instance_ok, in_bounds. cbn.
  repeat split; try lia; try (unfold Qle, Qlt; cbn; lia).
Defined.

(** X12.  On a [UIMapping] without a callback, assigning a value that
    validates to a combination stores that combination without any callback
    call, also when it equals the current one; every other field keeps its
    value. *)
Theorem X12_combination_change_without_callback (E : Env) (W X : Type)
  (self : Object W X) (value : Raw E) (new_combi : InputCombination)
  (w : W) :
  cls self = UIMappingCls ->
  instance_ok (fields self) ->
  combination_changed self = None ->
  InputCombination_validate E value = Some new_combi ->
  let out := setattr E W X self (SetInputCombination value) w in
  raised out = None
  /\ fields (self_after out)
     = with_input_combination (fields self) new_combi
  /\ world_after out = w
  /\ callback_calls out = [].
Proof.
  intros Hcls Hok Hcb Hvalid. unfold setattr. rewrite Hcb.
  rewrite (BaseModel_setattr_combination E W X self _ _ Hcls Hvalid Hok).
  cbn. repeat split.
Qed.

Lemma X12_combination_change_without_callback_witness :
  let out :=
    setattr sample_env (list InputCombination) string sample_editable
      (SetInputCombination (E := sample_env) (Some [key_config 31])) [] in
  raised out = None
  /\ fields (self_after out)
     = with_input_combination (fields sample_editable) [key_config 31]
  /\ world_after out = []
  /\ callback_calls out = [].
Proof.
  apply (X12_combination_change_without_callback sample_env
           (list InputCombination) string sample_editable
           (Some [key_config 31]) [key_config 31] []);
    try reflexivity.
  unfold instance_ok, in_bounds. cbn.
  repeat split; try lia; try (unfold Qle, Qlt; cbn; lia).
Defined.

(** ** The broadcast snapshot *)

(** X13.  A [MappingData] is immutable: no call of [__setattr__] changes any
    of its fields, and without a callback every assignment to a field raises
    the immutability error. *)
Theorem X13_mapping_data_is_immutable (E : Env) (W X : Type)
  (self : Object W X) (a : Assignment E W X) (w : W) :
  cls self = MappingDataCls ->
  fields (self_after (setattr E W X self a w)) = fields self
  /\ (combination_changed self = None ->
      validate_assigned E W X MappingDataCls a <> None ->
      raised (setattr E W X self a w) = Some ImmutableError).
Proof.
  intros Hcls. split.
  - destruct (setattr_self_after E W X self a w) as [-> | (a' & Hset & _)];
      [reflexivity|].
    unfold BaseModel_setattr in Hset. rewrite Hcls in Hset.
    destruct a'; cbn in Hset; try discriminate.
    now injection Hset as <-.
  - intros Hcb Hfield. unfold setattr, BaseModel_setattr.
    rewrite Hcb, Hcls.
    destruct a; cbn in Hfield |- *; try reflexivity; congruence.
Qed.

Lemma X13_mapping_data_is_immutable_witness :
  fields
    (self_after
       (setattr sample_env (list InputCombination) string sample_snapshot
          (SetOutputSymbol (E := sample_env) (Some "b")) []))
  = fields sample_snapshot
  /\ (combination_changed sample_snapshot = None ->
      validate_assigned sample_env (list InputCombination) string
        MappingDataCls (SetOutputSymbol (Some "b")) <> None ->
      raised
        (setattr sample_env (list InputCombination) string sample_snapshot
           (SetOutputSymbol (E := sample_env) (Some "b")) [])
      = Some ImmutableError).
Proof.
  apply (X13_mapping_data_is_immutable sample_env (list InputCombination)
           string sample_snapshot (SetOutputSymbol (Some "b")) []).
  reflexivity.
Defined.

(** X14.  [get_bus_message] succeeds on every instance: the snapshot is a
    [MappingData] with the field values of the instance and without its
    callback. *)
Theorem X14_bus_message_of_any_instance (E : Env) (W X : Type)
  (self : Object W X) :
  (forall combination,
     InputCombination_validate E (raw_of E combination) = Some combination) ->
  instance_ok (fields self) ->
  get_bus_message E W X self
  = inr {| cls := MappingDataCls; fields := fields self;
           combination_changed := None |}.
Proof.
  intros Hvalid Hok. apply instance_ok_iff in Hok. destruct Hok as [Hn Hs].
  unfold get_bus_message.
  now apply construct_dict_permissive.
Qed.

Lemma X14_bus_message_of_any_instance_witness :
  get_bus_message sample_env (list InputCombination) string sample_mapping
  = inr {| cls := MappingDataCls; fields := fields sample_mapping;
           combination_changed := None |}.
Proof.
  apply (X14_bus_message_of_any_instance sample_env (list InputCombination)
           string sample_mapping).
  - reflexivity.
  - unfold instance_ok, in_bounds. cbn.
    repeat split; try lia; try (unfold Qle, Qlt; cbn; lia).
Defined.

(** ** The editable mapping takes what it is given *)

Lemma construct_permissive_inr (E : Env) (W X : Type) (c : Class)
  (kwargs : Kwargs (Raw E)) (o : Object W X) :
  c <> MappingCls ->
  construct E W X c kwargs = inr o ->
  values_of_fields (fields o)
  = validate_mapping_type (fst (validate_fields E c kwargs)).
Proof.
  intros Hc. unfold construct, validate_model.
  replace (pre_root_validators E c) with
    (@nil (Kwargs (Raw E) -> ErrorItem + Kwargs (Raw E)))
    by (destruct c; [reflexivity | congruence | reflexivity]).
  cbn [run_pre_root_validators].
  destruct (validate_fields E c kwargs) as [v errs].
  rewrite (run_post_root_validators_other E c _ _ Hc).
  destruct errs; [|discriminate].
  destruct (fields_of_values (validate_mapping_type v)) as [f|] eqn:Hf;
    [|discriminate].
  intros [= <-]. cbn [fields fst]. now apply values_of_fields_of_values.
Qed.

(** X15.  A [UIMapping] and a [MappingData] store the symbol, the output
    type, the output code, the name and the target exactly as they are
    given: the symbol is not stripped and not looked up. *)
Theorem X15_editable_mapping_stores_verbatim (E : Env) (W X : Type)
  (c : Class) (kwargs : Kwargs (Raw E)) (o : Object W X) :
  c <> MappingCls ->
  construct E W X c kwargs = inr o ->
  output_symbol (fields o) = kw_output_symbol kwargs
  /\ output_type (fields o) = kw_output_type kwargs
  /\ output_code (fields o) = kw_output_code kwargs
  /\ name (fields o) = kw_name kwargs
  /\ target_uinput (fields o) = kw_target_uinput kwargs.
Proof.
  intros Hc H.
  pose proof (construct_permissive_inr E W X _ _ _ Hc H) as Hv.
  destruct (validate_mapping_type_outputs (fst (validate_fields E c kwargs)))
    as (Hs & Ht & Hcode & Hn & Htu).
  rewrite <- Hv in Hs, Ht, Hcode, Hn, Htu. cbn in Hs, Ht, Hcode, Hn, Htu.
  repeat split; try assumption.
  rewrite Htu. destruct c; [reflexivity | congruence | reflexivity].
Qed.

Lemma X15_editable_mapping_stores_verbatim_witness :
  let o :=
    {| cls := UIMappingCls;
       fields := sample_fields_of [key_config 30] (Some "keyboard")
                   (Some " zz ") None None (Some KEY_MACRO);
       combination_changed := @None (Callback unit string) |} in
  let kwargs :=
    sample_kwargs (Some [key_config 30]) (Some "keyboard") (Some " zz ")
      None None in
  output_symbol (fields o) = kw_output_symbol kwargs
  /\ output_type (fields o) = kw_output_type kwargs
  /\ output_code (fields o) = kw_output_code kwargs
  /\ name (fields o) = kw_name kwargs
  /\ target_uinput (fields o) = kw_target_uinput kwargs.
Proof.
  apply (X15_editable_mapping_stores_verbatim sample_env unit string
           UIMappingCls
           (sample_kwargs (Some [key_config 30]) (Some "keyboard")
              (Some " zz ") None None));
    [discriminate | reflexivity].
Defined.

(** ** Mappings without an output, and what the symbol check reports *)

(** X16.  An instance without an output is never valid: when the symbol is
    unset or empty and the output type or the output code is unset,
    [get_error] returns a [ValidationError] that holds the
    output-symbol-variant error, and [is_valid] of a [UIMapping] or a
    [MappingData] is false. *)
Theorem X16_no_output_is_invalid (E : Env) (W X : Type)
  (self : Object W X) :
  output_symbol (fields self) = None \/ output_symbol (fields self) = Some "" ->
  output_type (fields self) = None \/ output_code (fields self) = None ->
  (exists errors,
     get_error E W X self = Some (ValidationError errors)
     /\ In OutputSymbolVariantError errors)
  /\ (cls self <> MappingCls -> is_valid E W X self = false).
Proof.
  intros Hsym Hout.
  assert (Hpre :
    validate_symbol E (dict E (fields self))
    = inr (set_kw_output_symbol (dict E (fields self)) None)).
  { unfold validate_symbol.
    change (kw_output_symbol (dict E (fields self)))
      with (output_symbol (fields self)).
    destruct Hsym as [Hn | He]; [|now rewrite He].
    rewrite Hn. f_equal.
    rewrite <- (set_kw_output_symbol_same _ (dict E (fields self))) at 1.
    change (kw_output_symbol (dict E (fields self)))
      with (output_symbol (fields self)).
    now rewrite Hn. }
  pose proof (validate_model_Mapping E _ _ Hpre) as Hmodel.
  cbv zeta in Hmodel.
  set (values := validate_mapping_type
                   (fst (validate_fields E MappingCls
                           (set_kw_output_symbol (dict E (fields self))
                              None)))) in *.
  assert (Hvar :
    validate_output_symbol_variant values = inl OutputSymbolVariantError).
  { destruct (validate_mapping_type_outputs
                (fst (validate_fields E MappingCls
                        (set_kw_output_symbol (dict E (fields self)) None))))
      as (Hs & Ht & Hc & _).
    fold values in Hs, Ht, Hc. cbn in Hs, Ht, Hc.
    unfold validate_output_symbol_variant. rewrite Hs, Ht, Hc.
    destruct Hout as [-> | ->]; [reflexivity|].
    cbn. now rewrite orb_true_r. }
  rewrite Hvar in Hmodel. cbn [field_errors] in Hmodel.
  assert (Herr : exists errors,
             get_error E W X self = Some (ValidationError errors)
             /\ In OutputSymbolVariantError errors).
  { match type of Hmodel with
    | _ = (_, ?l) => destruct l as [|e errors] eqn:Hl
    end.
    - exfalso. apply (f_equal (@length ErrorItem)) in Hl.
      rewrite !length_app in Hl. cbn in Hl. lia.
    - exists (e :: errors). unfold get_error.
      rewrite (construct_raises E W X _ _ _ _ _ Hmodel).
      split; [reflexivity|].
      rewrite <- Hl. apply in_or_app. right. now left. }
  split; [exact Herr|].
  intros Hcls. destruct Herr as (errors & Hget & _).
  unfold is_valid. rewrite Hget.
  destruct (cls self); [reflexivity | congruence | reflexivity].
Qed.

Lemma X16_no_output_is_invalid_witness :
  let self :=
    {| cls := UIMappingCls;
       fields := sample_fields_of [key_config 30] None None (Some EV_KEY)
                   None (Some KEY_MACRO);
       combination_changed := @None (Callback unit string) |} in
  (exists errors,
     get_error sample_env unit string self = Some (ValidationError errors)
     /\ In OutputSymbolVariantError errors)
  /\ (cls self <> MappingCls -> is_valid sample_env unit string self = false).
Proof.
  apply (X16_no_output_is_invalid sample_env unit string
           {| cls := UIMappingCls;
              fields := sample_fields_of [key_config 30] None None
                          (Some EV_KEY) None (Some KEY_MACRO);
              combination_changed := None |});
    [left; reflexivity | right; reflexivity].
Defined.

(** X17.  A symbol that, stripped, is neither the disable symbol nor a
    macro nor known to the keyboard layout makes the construction of a
    [Mapping] fail with the unknown-symbol error for the stripped symbol,
    and with no other error, whatever the other fields are. *)
Theorem X17_unknown_symbol_is_reported_alone (E : Env) (W X : Type)
  (kwargs : Kwargs (Raw E)) (symbol : string) :
  kw_output_symbol kwargs = Some symbol ->
  symbol <> "" ->
  strip symbol <> DISABLE_NAME E ->
  is_this_a_macro E (strip symbol) = false ->
  keyboard_layout_get E (strip symbol) = None ->
  construct E W X MappingCls kwargs
  = inl (ValidationError [OutputSymbolUnknownError (strip symbol)]).
Proof.
  intros Hs Hne Hdisable Hmacro Hlayout.
  apply construct_Mapping_pre_error. unfold validate_symbol. rewrite Hs.
  apply String.eqb_neq in Hne, Hdisable. rewrite Hne. cbv zeta.
  now rewrite Hdisable, Hmacro, Hlayout.
Qed.

Lemma X17_unknown_symbol_is_reported_alone_witness :
  construct sample_env unit string MappingCls
    (sample_kwargs None None (Some " zz ") (Some EV_ABS) None)
  = inl (ValidationError [OutputSymbolUnknownError (strip " zz ")]).
Proof.
  apply (X17_unknown_symbol_is_reported_alone sample_env unit string
           (sample_kwargs None None (Some " zz ") (Some EV_ABS) None)
           " zz ");
    try reflexivity; discriminate.
Defined.



Lemma validate_fields_errors_symbol (E : Env) (c : Class)
  (kwargs : Kwargs (Raw E)) (symbol : option string) :
  snd (validate_fields E c (set_kw_output_symbol kwargs symbol))
  = snd (validate_fields E c kwargs)
  /\ v_input_combination
       (fst (validate_fields E c (set_kw_output_symbol kwargs symbol)))
     = v_input_combination (fst (validate_fields E c kwargs)).
Proof. split; reflexivity. Qed.

(** X19.  The disable symbol is a valid output for every input: when the
    symbol, stripped, is the disable symbol, no output type or code is
    given and the field validators raise no error, a [Mapping] is
    constructed, whether or not the combination has an analog input and
    whatever the keyboard layout and the target say about the symbol.  Its
    mapping type is [key_macro]. *)
Theorem X19_disable_symbol_is_always_valid (E : Env) (W X : Type)
  (kwargs : Kwargs (Raw E)) (symbol : string) :
  kw_output_symbol kwargs = Some symbol ->
  strip symbol = DISABLE_NAME E ->
  DISABLE_NAME E <> "" ->
  kw_output_type kwargs = None ->
  kw_output_code kwargs = None ->
  snd (validate_fields E MappingCls kwargs) = [] ->
  exists m,
    construct E W X MappingCls kwargs = inr m
    /\ output_symbol (fields m) = Some (DISABLE_NAME E)
    /\ mapping_type (fields m) = Some KEY_MACRO.
Proof.
  intros Hs Hstrip Hdisable Htype Hcode Herrs.
  assert (Hne : symbol <> "").
  { intros ->. cbn in Hstrip. congruence. }
  set (kwargs' := set_kw_output_symbol kwargs (Some (DISABLE_NAME E))).
  assert (Hpre : validate_symbol E kwargs = inr kwargs').
  { unfold validate_symbol. rewrite Hs.
    apply String.eqb_neq in Hne. rewrite Hne. cbv zeta.
    now rewrite Hstrip, String.eqb_refl. }
  destruct (validate_fields_errors_symbol E MappingCls kwargs
              (Some (DISABLE_NAME E))) as [Herrs' Hic].
  fold kwargs' in Herrs', Hic. rewrite Herrs in Herrs'.
  destruct (validate_fields E MappingCls kwargs') as [values errs] eqn:Hf.
  cbn [fst snd] in Herrs', Hic. subst errs.
  destruct (validate_fields_complete E _ _ _ Hf) as [f0 Hf0].
  destruct (validate_fields_Mapping_ok E _ _ Hf) as ([(c & Hc & _) _] & _).
  destruct (validate_fields_outputs E MappingCls kwargs')
    as (Hvs & Hvt & Hvc & _).
  rewrite Hf in Hvs, Hvt, Hvc. cbn [fst] in Hvs, Hvt, Hvc.
  cbn [kwargs' kw_output_symbol kw_output_type kw_output_code
         set_kw_output_symbol] in Hvs, Hvt, Hvc.
  rewrite Htype in Hvt. rewrite Hcode in Hvc.
  assert (Htruthy : truthy_str (Some (DISABLE_NAME E)) = true).
  { cbn. now apply negb_true_iff, String.eqb_neq. }
  assert (Hvmt : validate_mapping_type values
                 = set_v_mapping_type values (Some KEY_MACRO)).
  { unfold validate_mapping_type. rewrite Hvs, Hvt, Hvc, Htruthy.
    cbn. reflexivity. }
  destruct (fields_of_values_set_mapping_type values f0 (Some KEY_MACRO) Hf0)
    as [f Hfields].
  exists {| cls := MappingCls; fields := f; combination_changed := None |}.
  assert (Hv : values_of_fields f = set_v_mapping_type values (Some KEY_MACRO))
    by now apply values_of_fields_of_values.
  split.
  - unfold construct. rewrite (validate_model_Mapping E _ _ Hpre).
    fold kwargs'. rewrite Hf. cbv zeta. cbn [fst snd]. rewrite Hvmt.
    unfold validate_output_symbol_variant, validate_output_integrity,
      output_matches_input.
    cbn [v_output_symbol v_output_type v_output_code v_input_combination
           v_mapping_type set_v_mapping_type].
    rewrite Hvs, Hvt, Hvc, Hc, Htruthy.
    cbn [is_none is_some negb andb orb field_errors app MappingType_eqb
           opt_str_eqb].
    rewrite String.eqb_refl.
    destruct (find_analog_input_config E c); cbn [is_some negb andb];
      rewrite ?andb_false_r; cbn [field_errors app]; now rewrite Hfields.
  - cbn [fields].
    change (output_symbol f) with (v_output_symbol (values_of_fields f)).
    change (mapping_type f) with (v_mapping_type (values_of_fields f)).
    rewrite Hv. cbn. auto.
Qed.

Lemma X19_disable_symbol_is_always_valid_witness :
  exists m,
    construct sample_env unit string MappingCls
      (sample_kwargs (Some [abs_config 0 None]) (Some "mouse")
         (Some " disable") None None) = inr m
    /\ output_symbol (fields m) = Some (DISABLE_NAME sample_env)
    /\ mapping_type (fields m) = Some KEY_MACRO.
Proof.
  apply (X19_disable_symbol_is_always_valid sample_env unit string
           (sample_kwargs (Some [abs_config 0 None]) (Some "mouse")
              (Some " disable") None None)
           " disable");
    try reflexivity; discriminate.
Defined.

(** ** Wheel outputs *)

(** X20.  No output code is a wheel output and a high-resolution wheel
    output at once, and a mapping without an output code is neither. *)
Theorem X20_wheel_outputs_exclude_each_other (self : Fields) :
  is_wheel_output self && is_high_res_wheel_output self = false
  /\ (output_code self = None ->
      is_wheel_output self = false
      /\ is_high_res_wheel_output self = false).
Proof.
  unfold is_wheel_output, is_high_res_wheel_output.
  destruct (output_code self) as [c|]; cbn; [|auto].
  split; [|discriminate].
  unfold REL_WHEEL, REL_HWHEEL, REL_WHEEL_HI_RES, REL_HWHEEL_HI_RES.
  destruct (Z.eqb_spec c 8), (Z.eqb_spec c 6), (Z.eqb_spec c 11),
    (Z.eqb_spec c 12); cbn; try reflexivity; lia.
Qed.

Lemma X20_wheel_outputs_exclude_each_other_witness :
  is_wheel_output sample_fields = false
  /\ is_high_res_wheel_output sample_fields = false.
Proof.
  apply (X20_wheel_outputs_exclude_each_other sample_fields). reflexivity.
Defined.

(** ** The resolved output of a validated mapping *)

(** What a symbol that [validate_symbol] lets pass has gone through: it is
    the disable symbol, or a macro, or a symbol of the keyboard layout whose
    code the given target, if any, can emit. *)
Lemma validate_symbol_passed (E : Env) (kwargs kwargs' : Kwargs (Raw E))
  (symbol : string) :
  validate_symbol E kwargs = inr kwargs' ->
  kw_output_symbol kwargs' = Some symbol ->
  symbol = DISABLE_NAME E
  \/ is_this_a_macro E symbol = true
  \/ exists code,
       keyboard_layout_get E symbol = Some code
       /\ forall target,
            kw_target_uinput kwargs = Some target ->
            can_default_uinput_emit E target EV_KEY code = true.
Proof.
  intros Hpre Hs.
  pose proof (validate_symbol_normalizes E _ _ Hpre) as Hn.
  rewrite Hs in Hn. unfold validate_symbol in Hpre.
  destruct (kw_output_symbol kwargs) as [s|]; [|discriminate].
  destruct (s =? "")%string; [discriminate|].
  injection Hn as ->. cbv zeta in Hpre.
  destruct (strip s =? DISABLE_NAME E)%string eqn:Hd.
  { left. now apply String.eqb_eq. }
  destruct (is_this_a_macro E (strip s)); [auto|].
  destruct (keyboard_layout_get E (strip s)) as [code|]; [|discriminate].
  right. right. exists code. split; [reflexivity|].
  intros target Ht. cbn [kw_target_uinput set_kw_output_symbol] in Hpre.
  rewrite Ht in Hpre.
  destruct (can_default_uinput_emit E target EV_KEY code);
    [reflexivity | discriminate].
Qed.

(** X21.  On a validated mapping [get_output_type_code] returns the pair of
    the key class with an unresolved code only for the disable symbol. *)
Theorem X21_unresolved_code_only_for_disable (E : Env) (W X : Type)
  (kwargs : Kwargs (Raw E)) (m : Object W X) :
  construct E W X MappingCls kwargs = inr m ->
  get_output_type_code E (fields m) = Some (EV_KEY, None) ->
  output_symbol (fields m) = Some (DISABLE_NAME E).
Proof.
  intros H Hget.
  destruct (construct_Mapping_checks E W X _ _ H)
    as (_ & _ & _ & _ & _ & _ & _ & _ & kwargs' & Hpre & Hs & _).
  unfold get_output_type_code in Hget.
  assert (Hsym :
    match output_symbol (fields m) with
    | Some symbol =>
        if truthy_str (Some symbol) && negb (is_this_a_macro E symbol)
        then Some (EV_KEY, keyboard_layout_get E symbol)
        else None
    | None => None
    end = Some (EV_KEY, None)).
  { destruct (output_code (fields m)), (output_type (fields m));
      try exact Hget. discriminate. }
  destruct (output_symbol (fields m)) as [symbol|] eqn:Hos; [|discriminate].
  destruct (truthy_str (Some symbol)); [|discriminate].
  destruct (is_this_a_macro E symbol) eqn:Hmacro; [discriminate|].
  cbn in Hsym. injection Hsym as Hlayout.
  destruct (validate_symbol_passed E _ _ symbol Hpre (eq_sym Hs))
    as [-> | [Hm | (code & Hcode & _)]]; [reflexivity | congruence
                                         | congruence].
Qed.

Lemma X21_unresolved_code_only_for_disable_witness :
  exists m,
    construct sample_env_without_layout unit string MappingCls
      (sample_kwargs (Some [key_config 30]) (Some "keyboard")
         (Some "disable") None None) = inr m
    /\ output_symbol (fields m) = Some "disable".
Proof.
  eexists. split; [reflexivity|].
  apply (X21_unresolved_code_only_for_disable sample_env_without_layout
           unit string
           (sample_kwargs (Some [key_config 30]) (Some "keyboard")
              (Some "disable") None None));
    reflexivity.
Defined.

(** X22.  In a validated mapping, a non-empty symbol that is neither the
    disable symbol nor a macro is a symbol of the keyboard layout, and the
    target of the mapping can emit its code as a key event;
    [get_output_type_code] returns the explicit pair if both are set, and
    else the key class with that code. *)
Theorem X22_target_can_emit_symbol (E : Env) (W X : Type)
  (kwargs : Kwargs (Raw E)) (m : Object W X) (symbol : string) :
  construct E W X MappingCls kwargs = inr m ->
  output_symbol (fields m) = Some symbol ->
  symbol <> "" ->
  symbol <> DISABLE_NAME E ->
  is_this_a_macro E symbol = false ->
  exists code target,
    keyboard_layout_get E symbol = Some code
    /\ target_uinput (fields m) = Some target
    /\ can_default_uinput_emit E target EV_KEY code = true
    /\ get_output_type_code E (fields m)
       = match output_code (fields m), output_type (fields m) with
         | Some c, Some t => Some (t, Some c)
         | _, _ => Some (EV_KEY, Some code)
         end.
Proof.
  intros H Hos Hne Hdisable Hmacro.
  destruct (construct_Mapping_checks E W X _ _ H)
    as (_ & _ & _ & [_ (target & Htarget & _)] & _ & _ & _ & _ & kwargs'
        & Hpre & Hs & Htu & _).
  cbn in Htarget. rewrite Hos in Hs.
  destruct (validate_symbol_passed E _ _ symbol Hpre (eq_sym Hs))
    as [Hd | [Hm | (code & Hcode & Hemit)]]; try congruence.
  exists code, target. split; [exact Hcode|]. split; [exact Htarget|].
  split; [apply Hemit; congruence|].
  unfold get_output_type_code. rewrite Hos, Hmacro, Hcode.
  assert (Ht : truthy_str (Some symbol) = true).
  { cbn. now apply negb_true_iff, String.eqb_neq. }
  rewrite Ht. reflexivity.
Qed.

Lemma X22_target_can_emit_symbol_witness :
  exists code target,
    keyboard_layout_get sample_env "b" = Some code
    /\ target_uinput (fields sample_key_mapping) = Some target
    /\ can_default_uinput_emit sample_env target EV_KEY code = true
    /\ get_output_type_code sample_env (fields sample_key_mapping)
       = match output_code (fields sample_key_mapping),
               output_type (fields sample_key_mapping) with
         | Some c, Some t => Some (t, Some c)
         | _, _ => Some (EV_KEY, Some code)
         end.
Proof.
  apply (X22_target_can_emit_symbol sample_env (list InputCombination)
           string
           (sample_kwargs (Some [key_config 3]) (Some "keyboard") (Some "b")
              (Some EV_KEY) (Some 48))
           sample_key_mapping "b");
    try reflexivity; discriminate.
Defined.

(** ** The convenience constructor *)

(** [Mapping.from_combination()], called without arguments, gives a valid
    mapping in the sample environment, as its docstring says: the
    constituent of the placeholder is no analog input, although it has a
    threshold. *)
Lemma from_combination_default_sample :
  from_combination_default sample_env unit string sample_raw_truthy
    sample_placeholder
  = inr {| cls := MappingCls;
           fields :=
             sample_fields_of
               [{| config_type := 99; config_code := 99;
                   analog_threshold := Some 99 |}]
               (Some "keyboard") (Some "a") None None (Some KEY_MACRO);
           combination_changed := None |}.
Proof. reflexivity. Qed.

(** The empty combination, the symbol [a] and a keyboard target: the
    mapping is constructed, it is a key or macro mapping, and its output
    resolves to the key class and the code of [a]. *)
Lemma empty_combination_key_mapping :
  exists m,
    construct sample_env unit string MappingCls
      (sample_kwargs (Some (empty_combination sample_env)) (Some "keyboard")
         (Some "a") None None) = inr m
    /\ input_combination (fields m) = empty_combination sample_env
    /\ mapping_type (fields m) = Some KEY_MACRO
    /\ get_output_type_code sample_env (fields m) = Some (EV_KEY, Some 30).
Proof. eexists. repeat split. Qed.

(** X23.  What [from_combination] returns, when it returns, is a mapping
    with the symbol it was given, stripped, with the target it was given,
    without explicit output type, code or name, and with the defaults for
    all the other fields.  It returns nothing without a non-empty symbol. *)
Theorem X23_from_combination (E : Env) (W X : Type)
  (raw_truthy : Raw E -> bool) (placeholder : Raw E)
  (input_combination : option (Raw E)) (target symbol : option string)
  (m : Object W X) :
  from_combination E W X raw_truthy placeholder input_combination target
    symbol = inr m ->
  (exists s, symbol = Some s /\ s <> ""
             /\ output_symbol (fields m) = Some (strip s))
  /\ target_uinput (fields m) = target
  /\ output_type (fields m) = None
  /\ output_code (fields m) = None
  /\ name (fields m) = None
  /\ release_combination_keys (fields m) = true
  /\ macro_key_sleep_ms (fields m) = 0
  /\ deadzone (fields m) = (1 # 10)%Q
  /\ gain (fields m) = 1%Q
  /\ expo (fields m) = 0%Q
  /\ rel_rate (fields m) = 60
  /\ rel_to_abs_input_cutoff (fields m) = 2
  /\ release_timeout (fields m) = (5 # 100)%Q
  /\ force_release_timeout (fields m) = false.
Proof.
  unfold from_combination. cbv zeta.
  set (kwargs := {| kw_input_combination := _ |}). intros H.
  destruct (construct_Mapping_inr E W X _ _ H)
    as (kwargs' & values & Hpre & Hf & Hvar & _ & _ & Hfields & _).
  pose proof (values_of_fields_of_values _ _ Hfields) as Hv.
  pose proof (validate_symbol_inr E _ _ Hpre) as Hk.
  pose proof (validate_symbol_normalizes E _ _ Hpre) as Hn.
  destruct (validate_fields_Mapping_ok E _ _ Hf) as (_ & Htu & _).
  assert (Hvals : values = fst (validate_fields E MappingCls kwargs'))
    by now rewrite Hf.
  rewrite Hk in Hvals, Htu.
  rewrite validate_mapping_type_set in Hv, Hvar.
  unfold validate_output_symbol_variant in Hvar.
  cbn [v_output_symbol v_output_type v_output_code set_v_mapping_type]
    in Hvar.
  rewrite Hvals in Hvar. cbn in Hvar, Hn, Htu.
  split.
  - destruct symbol as [s|].
    + destruct (s =? "")%string eqn:He.
      * rewrite Hn in Hvar. discriminate.
      * exists s. split; [reflexivity|].
        split; [now apply String.eqb_neq|].
        apply (f_equal v_output_symbol) in Hv.
        rewrite Hvals in Hv. cbn in Hv. now rewrite Hv, Hn.
    + rewrite Hn in Hvar. discriminate.
  - split.
    { apply (f_equal v_target_uinput) in Hv. cbn in Hv. congruence. }
    rewrite Hvals in Hv.
    pose proof (f_equal v_output_type Hv) as H1.
    pose proof (f_equal v_output_code Hv) as H2.
    pose proof (f_equal v_name Hv) as H3.
    pose proof (f_equal v_release_combination_keys Hv) as H4.
    pose proof (f_equal v_macro_key_sleep_ms Hv) as H5.
    pose proof (f_equal v_deadzone Hv) as H6.
    pose proof (f_equal v_gain Hv) as H7.
    pose proof (f_equal v_expo Hv) as H8.
    pose proof (f_equal v_rel_rate Hv) as H9.
    pose proof (f_equal v_rel_to_abs_input_cutoff Hv) as H10.
    pose proof (f_equal v_release_timeout Hv) as H11.
    pose proof (f_equal v_force_release_timeout Hv) as H12.
    cbn in H1, H2, H3, H4, H5, H6, H7, H8, H9, H10, H11, H12.
    repeat split; congruence.
Qed.

Lemma X23_from_combination_witness :
  (exists s, Some "a" = Some s /\ s <> ""
             /\ output_symbol (fields sample_validated) = Some (strip s))
  /\ target_uinput (fields sample_validated) = Some "keyboard"
  /\ output_type (fields sample_validated) = None
  /\ output_code (fields sample_validated) = None
  /\ name (fields sample_validated) = None
  /\ release_combination_keys (fields sample_validated) = true
  /\ macro_key_sleep_ms (fields sample_validated) = 0
  /\ deadzone (fields sample_validated) = (1 # 10)%Q
  /\ gain (fields sample_validated) = 1%Q
  /\ expo (fields sample_validated) = 0%Q
  /\ rel_rate (fields sample_validated) = 60
  /\ rel_to_abs_input_cutoff (fields sample_validated) = 2
  /\ release_timeout (fields sample_validated) = (5 # 100)%Q
  /\ force_release_timeout (fields sample_validated) = false.
Proof.
  apply (X23_from_combination sample_env (list InputCombination) string
           sample_raw_truthy sample_placeholder (Some (Some [key_config 30]))
           (Some "keyboard") (Some "a") sample_validated).
  reflexivity.
Defined.
